(** * Verification model of the hudler ingest-and-deliver pipeline

    Shallow embedding of:
    - [HUDClient.parse_event_data] and [HUDClient.connect_and_display]
      (src/main.py);
    - [PicoScrollDisplay] / [QualiaESP32Display]: [update_speed],
      [_reconnect], [_init_serial], [_find_pico_port] / [_find_esp32_port]
      (src/display.py);
    - the serial-reading throttle loop of [main] in src/code.py. *)

From Stdlib Require Import String Ascii List ZArith QArith Qround Bool Lia.
Import ListNotations.
Open Scope Z_scope.
Open Scope string_scope.
Local Set Warnings "-register-all".

(** ** Python exceptions and results *)

(** The exception classes that the modelled code raises or catches. *)
Inductive py_exc :=
| RequestException      (* requests.exceptions.RequestException, incl. HTTPError *)
| KeyboardInterrupt     (* a BaseException, not an Exception *)
| AttributeError
| TypeError
| ValueError            (* json.JSONDecodeError is a subclass *)
| OverflowError
| SerialException       (* serial.SerialException *)
| OtherError.

(** [except Exception] catches everything but [KeyboardInterrupt]. *)
Definition is_Exception (e : py_exc) : bool :=
  match e with KeyboardInterrupt => false | _ => true end.

(** Either a returned value or a raised exception. *)
Inductive outcome (A : Type) :=
| Ret (a : A)
| Raise (e : py_exc).
Arguments Ret {A} a.
Arguments Raise {A} e.

(** Python floats: finite values are modelled exactly as rationals. *)
Inductive pyfloat :=
| PFinite (q : Q)
| PNaN
| PInf (negative : bool).

(** [int(x)] for a float: truncation toward zero, [ValueError] on nan,
    [OverflowError] on an infinity. *)
Definition py_int (x : pyfloat) : outcome Z :=
  match x with
  | PFinite q => Ret (Z.quot (Qnum q) (Zpos (Qden q)))
  | PNaN => Raise ValueError
  | PInf _ => Raise OverflowError
  end.

(** ** [HUDClient.parse_event_data] (src/main.py, lines 88-100) *)

Module Parser.

(** Values built by [json.loads].  An object is the dict it decodes to
    (its keys are distinct); [JNull] is Python's [None]. *)
Inductive json :=
| JNull
| JBool (b : bool)
| JNum (x : pyfloat)
| JStr (s : string)
| JArr (xs : list json)
| JObj (kvs : list (string * json)).

(** The result of [json.loads]: a value, or [JSONDecodeError]. *)
Inductive loaded :=
| Decoded (j : json)
| DecodeError.

(** [dict.get(k)]: the bound value, or [None] when [k] is absent. *)
Fixpoint dict_get (kvs : list (string * json)) (k : string) : json :=
  match kvs with
  | [] => JNull
  | (k', v) :: rest => if String.eqb k k' then v else dict_get rest k
  end.

(** Python truthiness. *)
Definition truthy (v : json) : bool :=
  match v with
  | JNull => false
  | JBool b => b
  | JNum (PFinite q) => negb (Qeq_bool q 0)
  | JNum _ => true
  | JStr s => negb (String.eqb s "")
  | JArr xs => negb (match xs with [] => true | _ => false end)
  | JObj kvs => negb (match kvs with [] => true | _ => false end)
  end.

(** [a or b]: [a] when it is truthy, otherwise [b]. *)
Definition py_or (a b : json) : json := if truthy a then a else b.

Section WithDecoders.

(** [float(s)] on a string: a float, or [None] for a [ValueError]. *)
Variable float_of_str : string -> option pyfloat.

(** [float(v)] on a decoded JSON value. *)
Definition py_float (v : json) : outcome pyfloat :=
  match v with
  | JNum x => Ret x
  | JBool b => Ret (PFinite (if b then 1 else 0)%Q)
  | JStr s =>
      match float_of_str s with
      | Some x => Ret x
      | None => Raise ValueError
      end
  | JNull | JArr _ | JObj _ => Raise TypeError
  end.

(** The body of [parse_event_data] after [json.loads]:
<<
        data = json.loads(event_data)
        speed = data.get('VDM_VehicleSpeed') or data.get('value') or data.get('speed')
        if speed is not None:
            return float(speed)
    except json.JSONDecodeError ...
    except (ValueError, TypeError) ...
    return None
>>
    [data.get] on a value that is not a dict raises [AttributeError], which
    none of the handlers catches. *)
Definition parse_loaded (r : loaded) : outcome (option pyfloat) :=
  match r with
  | DecodeError => Ret None
  | Decoded data =>
      match data with
      | JObj kvs =>
          let speed := py_or (py_or (dict_get kvs "VDM_VehicleSpeed")
                                    (dict_get kvs "value"))
                             (dict_get kvs "speed") in
          match speed with
          | JNull => Ret None
          | _ =>
              match py_float speed with
              | Ret x => Ret (Some x)
              | Raise e =>
                  match e with
                  | ValueError | TypeError => Ret None
                  | _ => Raise e
                  end
              end
          end
      | _ => Raise AttributeError
      end
  end.

Variable json_loads : string -> loaded.

(** [HUDClient.parse_event_data(event_data)]. *)
Definition parse_event_data (event_data : string) : outcome (option pyfloat) :=
  parse_loaded (json_loads event_data).

End WithDecoders.

(** The double-quote character. *)
Definition dq : string := String (ascii_of_nat 34) EmptyString.

(** The one-key object text [{"k": n}]. *)
Definition obj_text (k n : string) : string := "{" ++ dq ++ k ++ dq ++ ": " ++ n ++ "}".

(** Sample decoders used to evaluate the code on concrete frames: they agree
    with [json.loads] and [float] on the strings they list. *)
Definition sample_loads (s : string) : loaded :=
  if String.eqb s (obj_text "value" "30") then Decoded (JObj [("value", JNum (PFinite 30))])
  else if String.eqb s (obj_text "value" "0") then Decoded (JObj [("value", JNum (PFinite 0))])
  else if String.eqb s (obj_text "speed" "42") then Decoded (JObj [("speed", JNum (PFinite 42))])
  else if String.eqb s "42" then Decoded (JNum (PFinite 42))
  else DecodeError.

Definition sample_float_of_str (s : string) : option pyfloat :=
  if String.eqb s "30" then Some (PFinite 30) else None.

End Parser.

(** ** The serial display channels (src/display.py, lines 286-535)

    [PicoScrollDisplay] and [QualiaESP32Display] have the same code and
    differ only in the environment variable, the description keywords and
    the vendor ids of their port search: a [family] records these. *)

Module Serial.

(** An entry of [serial.tools.list_ports.comports()]. *)
Record port_info := {
  device : string;
  description : string;
  vid : option Z }.

Record family := {
  fam_env_var : string;
  fam_identifiers : list string;
  fam_vid_match : Z -> bool }.

(** [_find_pico_port]: [pico_identifiers] and [port.vid == 0x2E8A]. *)
Definition pico : family := {|
  fam_env_var := "PICO_SERIAL_PORT";
  fam_identifiers := ["Pico"; "pico"; "Raspberry Pi Pico"; "RPI"; "USB Serial"];
  fam_vid_match := fun v => Z.eqb v 0x2E8A%Z |}.

(** [_find_esp32_port]: [esp32_identifiers] and
    [port.vid in [0x1A86, 0x10C4, 0x303A]]. *)
Definition esp32 : family := {|
  fam_env_var := "ESP32_SERIAL_PORT";
  fam_identifiers := ["ESP32"; "ESP32-S3"; "CH340"; "CP210"; "Silicon Labs"; "USB Serial"];
  fam_vid_match := fun v => existsb (Z.eqb v) [0x1A86; 0x10C4; 0x303A]%Z |}.

(** [needle in hay] for Python strings. *)
Fixpoint starts_with (p s : string) : bool :=
  match p, s with
  | EmptyString, _ => true
  | String a p', String b s' => Ascii.eqb a b && starts_with p' s'
  | _, _ => false
  end.

Fixpoint py_in (needle hay : string) : bool :=
  starts_with needle hay ||
  match hay with
  | EmptyString => false
  | String _ hay' => py_in needle hay'
  end.

(** The auto-detection loop over [ports]:
<<
            for port in ports:
                if any(identifier in port.description for identifier in ...):
                    return port.device
                if hasattr(port, 'vid') and <vid test>:
                    return port.device
>>  *)
Fixpoint scan_ports (fam : family) (ports : list port_info) : option string :=
  match ports with
  | [] => None
  | p :: rest =>
      if existsb (fun identifier => py_in identifier (description p)) (fam_identifiers fam)
      then Some (device p)
      else if match vid p with Some v => fam_vid_match fam v | None => false end
      then Some (device p)
      else scan_ports fam rest
  end.

(** What the outside world answers during one call. *)
Record serial_env := {
  getenv : string -> option string;        (* os.getenv *)
  serial_available : bool;                 (* SERIAL_AVAILABLE *)
  comports : outcome (list port_info);     (* serial.tools.list_ports.comports() *)
  open_result : string -> outcome unit;    (* serial.Serial(port_name, ...) *)
  write_result : outcome unit;             (* self.ser.write(...) *)
  flush_result : outcome unit;             (* self.ser.flush() *)
  close_result : outcome unit }.           (* self.ser.close() *)

(** The attributes of a display object; [ser] is the open port's path. *)
Record display := {
  port : option string;
  ser : option string;
  current_speed : option pyfloat }.

(** Observable actions; [EWrite] is a write that went to the wire. *)
Inductive effect :=
| EOpen (p : string)
| EOpenFailed (p : string)
| EWrite (bytes : string)
| EWriteFailed (bytes : string)
| EFlush
| EClose
| ESleep (secs : Z).

(** A reader-state-writer-exception monad for the methods. *)
Definition M (A : Type) : Type :=
  serial_env -> display -> display * list effect * outcome A.

Definition ret {A} (a : A) : M A := fun _ st => (st, [], Ret a).

Definition bind {A B} (m : M A) (k : A -> M B) : M B :=
  fun env st =>
    let '(st1, ef1, r) := m env st in
    match r with
    | Ret a => let '(st2, ef2, r2) := k a env st1 in (st2, (ef1 ++ ef2)%list, r2)
    | Raise e => (st1, ef1, Raise e)
    end.

Notation "x <- m ;; k" := (bind m (fun x => k))
  (at level 61, m at next level, right associativity).
Notation "m ;;; k" := (bind m (fun _ => k))
  (at level 61, right associativity).

(** [try: m except ...]: the handler chooses a recovery for the exceptions
    it catches; [None] re-raises. *)
Definition try_except {A} (m : M A) (handler : py_exc -> option (M A)) : M A :=
  fun env st =>
    let '(st1, ef1, r) := m env st in
    match r with
    | Ret a => (st1, ef1, Ret a)
    | Raise e =>
        match handler e with
        | None => (st1, ef1, Raise e)
        | Some h => let '(st2, ef2, r2) := h env st1 in (st2, (ef1 ++ ef2)%list, r2)
        end
    end.

Definition ask : M serial_env := fun env st => (st, [], Ret env).
Definition get : M display := fun _ st => (st, [], Ret st).
Definition put (st' : display) : M unit := fun _ _ => (st', [], Ret tt).
Definition lift {A} (r : outcome A) : M A := fun _ st => (st, [], r).

Definition set_ser (s : option string) : M unit :=
  st <- get ;; put {| port := port st; ser := s; current_speed := current_speed st |}.
Definition set_port (p : option string) : M unit :=
  st <- get ;; put {| port := p; ser := ser st; current_speed := current_speed st |}.
Definition set_current_speed (v : option pyfloat) : M unit :=
  st <- get ;; put {| port := port st; ser := ser st; current_speed := v |}.

Definition sleep (secs : Z) : M unit := fun _ st => (st, [ESleep secs], Ret tt).

Definition serial_open (p : string) : M string :=
  fun env st =>
    match open_result env p with
    | Ret _ => (st, [EOpen p], Ret p)
    | Raise e => (st, [EOpenFailed p], Raise e)
    end.

Definition ser_write (bytes : string) : M unit :=
  fun env st =>
    match write_result env with
    | Ret _ => (st, [EWrite bytes], Ret tt)
    | Raise e => (st, [EWriteFailed bytes], Raise e)
    end.

Definition ser_flush : M unit :=
  fun env st => (st, [EFlush], flush_result env).

Definition ser_close : M unit :=
  fun env st => (st, [EClose], close_result env).

Definition list_comports : M (list port_info) := fun env st => (st, [], comports env).

(** Truthiness of an optional string ([None] and [""] are false). *)
Definition truthy_str (o : option string) : bool :=
  match o with
  | Some s => negb (String.eqb s "")
  | None => false
  end.

(** [except Exception]: recover with [h]. *)
Definition on_Exception {A} (h : M A) (e : py_exc) : option (M A) :=
  if is_Exception e then Some h else None.

(** [_find_pico_port] / [_find_esp32_port]. *)
Definition find_port (fam : family) : M (option string) :=
  st <- get ;;
  if truthy_str (port st) then ret (port st) else
  env <- ask ;;
  let env_port := getenv env (fam_env_var fam) in
  if truthy_str env_port then ret env_port else
  if negb (serial_available env) then ret None else
  try_except (ports <- list_comports ;; ret (scan_ports fam ports))
             (on_Exception (ret None)).

(** [_init_serial]. *)
Definition init_serial (fam : family) : M unit :=
  env <- ask ;;
  if negb (serial_available env) then ret tt else
  port_name <- find_port fam ;;
  match port_name with
  | Some p =>
      if String.eqb p "" then ret tt else
      try_except (h <- serial_open p ;;
                  set_ser (Some h) ;;;
                  sleep 2 ;;;
                  set_port (Some p))
                 (* except serial.SerialException / except Exception *)
                 (on_Exception (set_ser None))
  | None => ret tt
  end.

(** [_reconnect]. *)
Definition reconnect (fam : family) : M unit :=
  st <- get ;;
  (match ser st with
   | Some _ => try_except ser_close (fun _ => Some (ret tt)) ;;; set_ser None
   | None => ret tt
   end) ;;;
  sleep 1 ;;;
  init_serial fam.

(** Python's [str] of an int: the decimal digits of [n >= 0], most
    significant first, with a [-] in front of a negative number. *)
Definition digit_char (d : Z) : ascii := ascii_of_nat (48 + Z.to_nat d).

Fixpoint digits_aux (fuel : nat) (n : Z) (acc : string) : string :=
  match fuel with
  | O => acc
  | S f =>
      let acc' := String (digit_char (n mod 10)) acc in
      if Z.ltb n 10 then acc' else digits_aux f (n / 10) acc'
  end.

Definition str_nonneg (n : Z) : string :=
  digits_aux (S (Z.to_nat (Z.log2 n))) n "".

Definition py_str_int (z : Z) : string :=
  if Z.ltb z 0 then "-" ++ str_nonneg (- z) else str_nonneg z.

(** The line [f"{int(speed)}\n"]. *)
Definition nl : string := String (ascii_of_nat 10) EmptyString.

(** [update_speed(speed)]. *)
Definition update_speed (fam : family) (speed : pyfloat) : M unit :=
  set_current_speed (Some speed) ;;;
  st <- get ;;
  match ser st with
  | None => ret tt
  | Some _ =>
      try_except (n <- lift (py_int speed) ;;
                  let msg := py_str_int n ++ nl in
                  ser_write msg ;;;
                  ser_flush)
                 (fun e =>
                    match e with
                    | SerialException => Some (reconnect fam)
                    | _ => on_Exception (ret tt) e
                    end)
  end.

(** [cleanup()]. *)
Definition cleanup : M unit :=
  st <- get ;;
  match ser st with
  | Some _ => try_except ser_close (fun _ => Some (ret tt)) ;;; set_ser None
  | None => ret tt
  end.

(** The decimal reading of a line body: an optional [-] and at least one
    ASCII digit.  This is how the device side reads the line back. *)
Definition digit_val (c : ascii) : option Z :=
  let n := nat_of_ascii c in
  if (48 <=? n)%nat && (n <=? 57)%nat then Some (Z.of_nat n - 48) else None.

Fixpoint digits_value (s : string) (acc : Z) : option Z :=
  match s with
  | EmptyString => Some acc
  | String c s' =>
      match digit_val c with
      | Some d => digits_value s' (10 * acc + d)
      | None => None
      end
  end.

Definition decimal_value (s : string) : option Z :=
  match s with
  | EmptyString => None
  | String c r =>
      if Ascii.eqb c "-" then
        match r with
        | EmptyString => None
        | _ => option_map Z.opp (digits_value r 0)
        end
      else digits_value s 0
  end.

End Serial.

(** ** [HUDClient.connect_and_display] (src/main.py, lines 102-160) *)

Module Client.

(** An event of [SSEClient(response).events()]. *)
Record sse_event := {
  event : string;
  data : string }.

(** How the [for event in client.events()] loop ends. *)
Inductive stream_end :=
| StreamClosed
| StreamRaises (e : py_exc).

(** One pass of the [while] body, as the network answers it:
    [requests.get] / [raise_for_status] raise, or the connection succeeds
    and the stream delivers events. *)
Inductive attempt :=
| ConnectRaises (e : py_exc)
| Connected (events : list sse_event) (fin : stream_end).

(** What the loop does that can be observed. *)
Inductive run_event :=
| RAttempt                  (* requests.get(self.sse_url, ...) *)
| RConnected                (* raise_for_status() passed *)
| RUpdate (v : pyfloat)     (* self.display.update_speed(speed) *)
| RSleep (secs : Z)         (* time.sleep(self.retry_delay) *)
| RCleanup.                 (* self.display.cleanup() *)

(** How [connect_and_display] ends; [AwaitingAttempt] marks the point where
    the modelled list of network answers has run out. *)
Inductive run_result :=
| Returned
| Raised (e : py_exc)
| AwaitingAttempt.

Record hud_client := {
  retry_delay : Z;
  max_retries : Z }.

(** [HUDClient.__init__]: [retry_delay = 5], [max_retries = 10]. *)
Definition default_client : hud_client := {| retry_delay := 5; max_retries := 10 |}.

Definition prepend (tr : list run_event) (r : list run_event * run_result)
  : list run_event * run_result :=
  ((tr ++ fst r)%list, snd r).

Section Run.

(** [self.parse_event_data]. *)
Variable parse : string -> outcome (option pyfloat).

(** The [for event in client.events()] loop: the updates it makes and the
    exception that leaves it, if any.
<<
                for event in client.events():
                    if event.data:
                        speed = self.parse_event_data(event.data)
                        if speed is not None:
                            self.display.update_speed(speed)
                    if event.event == 'keep-alive':
                        continue
>>  *)
Fixpoint process_events (evs : list sse_event) : list run_event * option py_exc :=
  match evs with
  | [] => ([], None)
  | ev :: rest =>
      if String.eqb (data ev) "" then process_events rest
      else
        match parse (data ev) with
        | Raise e => ([], Some e)
        | Ret None => process_events rest
        | Ret (Some v) => let '(tr, r) := process_events rest in (RUpdate v :: tr, r)
        end
  end.

(** One pass of the [try] block: its events, the exception it raises, and
    [retry_count] afterwards ([0] once the connection succeeded). *)
Definition try_body (retry_count : Z) (a : attempt)
  : list run_event * option py_exc * Z :=
  match a with
  | ConnectRaises e => ([RAttempt], Some e, retry_count)
  | Connected evs fin =>
      let '(tr, r) := process_events evs in
      (RAttempt :: RConnected :: tr,
       match r with
       | Some e => Some e
       | None => match fin with StreamClosed => None | StreamRaises e => Some e end
       end,
       0)
  end.

(** The [while retry_count < self.max_retries] loop and the final
    [self.display.cleanup()].  The [except RequestException] and
    [except Exception] handlers do the same apart from logging:
    [retry_count += 1], then sleep and loop, or re-raise. *)
Fixpoint run (c : hud_client) (retry_count : Z) (atts : list attempt)
  : list run_event * run_result :=
  if Z.ltb retry_count (max_retries c) then
    match atts with
    | [] => ([], AwaitingAttempt)
    | a :: rest =>
        let '(tr, exc, rc) := try_body retry_count a in
        match exc with
        | None => prepend tr (run c rc rest)
        | Some KeyboardInterrupt => ((tr ++ [RCleanup])%list, Returned)
        | Some e =>
            let rc1 := rc + 1 in
            if Z.ltb rc1 (max_retries c)
            then prepend (tr ++ [RSleep (retry_delay c)])%list (run c rc1 rest)
            else (tr, Raised e)
        end
    end
  else ([RCleanup], Returned).

End Run.

(** [connect_and_display()] starts with [retry_count = 0]. *)
Definition connect_and_display (c : hud_client)
  (parse : string -> outcome (option pyfloat)) (atts : list attempt)
  : list run_event * run_result :=
  run parse c 0 atts.

Fixpoint count_attempts (tr : list run_event) : nat :=
  match tr with
  | [] => O
  | RAttempt :: rest => S (count_attempts rest)
  | _ :: rest => count_attempts rest
  end.

Fixpoint count_cleanups (tr : list run_event) : nat :=
  match tr with
  | [] => O
  | RCleanup :: rest => S (count_cleanups rest)
  | _ :: rest => count_cleanups rest
  end.

Fixpoint updates (tr : list run_event) : list pyfloat :=
  match tr with
  | [] => []
  | RUpdate v :: rest => v :: updates rest
  | _ :: rest => updates rest
  end.

End Client.

(** ** The display throttle of [main] in src/code.py (lines 525-588)

    Time is [time.monotonic()] counted in a fixed unit;
    [display_update_interval] is in the same unit.  Speeds are compared
    with Python's [!=], an arbitrary boolean test [V_neq]. *)

Module Throttle.

Section Loop.

Variable V : Type.
Variable V_neq : V -> V -> bool.
Variable display_update_interval : Z.

(** [a != b] where either side may be [None]. *)
Definition py_ne (a b : option V) : bool :=
  match a, b with
  | Some x, Some y => V_neq x y
  | None, None => false
  | _, _ => true
  end.

Record tstate := {
  pending_speed : option V;
  last_speed : option V;
  last_display_update : Z }.

(** [pending_speed = None], [last_speed = None], [last_display_update = 0]. *)
Definition init : tstate :=
  {| pending_speed := None; last_speed := None; last_display_update := 0 |}.

(** One processed line; [None] is a line where [float(line)] raised:
<<
                        speed = float(line)
                        if speed != pending_speed:
                            pending_speed = speed
>>  *)
Definition absorb (s : tstate) (line : option V) : tstate :=
  match line with
  | None => s
  | Some speed =>
      if py_ne (Some speed) (pending_speed s)
      then {| pending_speed := Some speed; last_speed := last_speed s;
              last_display_update := last_display_update s |}
      else s
  end.

(** The throttle test, the same in both branches of the loop:
<<
    if pending_speed is not None and pending_speed != last_speed
       and current_time - last_display_update >= display_update_interval:
        display_speed(display, pending_speed)
        last_display_update = current_time
        last_speed = pending_speed
        pending_speed = None
>>
    The second component is the value passed to [display_speed]. *)
Definition throttle (now : Z) (s : tstate) : tstate * option V :=
  match pending_speed s with
  | Some p =>
      if py_ne (Some p) (last_speed s)
         && Z.leb display_update_interval (now - last_display_update s)
      then ({| pending_speed := None; last_speed := Some p;
               last_display_update := now |}, Some p)
      else (s, None)
  | None => (s, None)
  end.

(** One pass of [while True]: bytes were available and these lines were
    complete, or no bytes were available. *)
Inductive tick :=
| DataTick (lines : list (option V)) (now : Z)
| IdleTick (now : Z).

Definition step (s : tstate) (t : tick) : tstate * option V :=
  match t with
  | DataTick lines now => throttle now (fold_left absorb lines s)
  | IdleTick now => throttle now s
  end.

(** The values passed to [display_speed] over a run of passes. *)
Fixpoint run_ticks (s : tstate) (ts : list tick) : list V :=
  match ts with
  | [] => []
  | t :: rest =>
      let '(s', out) := step s t in
      match out with
      | Some v => v :: run_ticks s' rest
      | None => run_ticks s' rest
      end
  end.

End Loop.

Arguments init {V}.
Arguments absorb {V} V_neq s line.
Arguments throttle {V} V_neq display_update_interval now s.
Arguments DataTick {V} lines now.
Arguments IdleTick {V} now.
Arguments step {V} V_neq display_update_interval s t.
Arguments run_ticks {V} V_neq display_update_interval s ts.

End Throttle.

(** ** String helpers shared by the host and the device code *)

Module Text.

(** [s.lstrip(chars)] / [s.rstrip(chars)] for the characters accepted by [p]. *)
Fixpoint lstrip_by (p : ascii -> bool) (s : string) : string :=
  match s with
  | EmptyString => EmptyString
  | String c s' => if p c then lstrip_by p s' else s
  end.

Fixpoint rstrip_by (p : ascii -> bool) (s : string) : string :=
  match s with
  | EmptyString => EmptyString
  | String c s' =>
      match rstrip_by p s' with
      | EmptyString => if p c then EmptyString else String c EmptyString
      | r => String c r
      end
  end.

(** [str.lower()] on ASCII text. *)
Definition lower_char (c : ascii) : ascii :=
  let n := nat_of_ascii c in
  if (65 <=? n)%nat && (n <=? 90)%nat then ascii_of_nat (n + 32) else c.

Fixpoint lower (s : string) : string :=
  match s with
  | EmptyString => EmptyString
  | String c s' => String (lower_char c) (lower s')
  end.

End Text.

(** ** [HUDClient.__init__] and [HUDClient.get_headers] (src/main.py, lines 39-86) *)

Module App.
Import Text Serial.

(** [f"{self.signal_path.rstrip('/')}/{self.signal_name}"]. *)
Definition slash (c : ascii) : bool := Ascii.eqb c "/".

Definition sse_url (signal_path signal_name : string) : string :=
  rstrip_by slash signal_path ++ "/" ++ signal_name.

(** [os.getenv(name, default)]. *)
Definition getenv_default (env : serial_env) (name default : string) : string :=
  match getenv env name with Some v => v | None => default end.

(** [get_headers()]: the dict in insertion order. *)
Definition get_headers (api_key : option string) : list (string * string) :=
  [("Accept", "text/event-stream"); ("Cache-Control", "no-cache")] ++
  (match api_key with
   | Some k => if truthy_str (Some k) then [("x-api-key", k)] else []
   | None => []
   end).

(** [headers[name]] / [headers.get(name)]. *)
Fixpoint header (name : string) (hs : list (string * string)) : option string :=
  match hs with
  | [] => None
  | (k, v) :: rest => if String.eqb k name then Some v else header name rest
  end.

Inductive display_kind := PicoKind | QualiaKind | TFTKind.

(** The [if] / [elif] / [else] on [display_type]. *)
Definition select_display (display_type : string) : display_kind :=
  if String.eqb display_type "pico" || String.eqb display_type "picoscroll" then PicoKind
  else if existsb (String.eqb display_type) ["qualia"; "esp32"; "esp32-s3"] then QualiaKind
  else TFTKind.

(** [os.getenv('DISPLAY_TYPE', 'tft').lower()]. *)
Definition display_type (env : serial_env) : string :=
  lower (getenv_default env "DISPLAY_TYPE" "tft").

(** [PicoScrollDisplay(port=..., baudrate=...)] /
    [QualiaESP32Display(...)]: the attributes set in [__init__], then
    [self._init_serial()]. *)
Definition new_serial_display (fam : family) (port_arg : option string) (env : serial_env)
  : display * list effect * outcome unit :=
  init_serial fam env {| port := port_arg; ser := None; current_speed := None |}.

(** The display object [__init__] builds; the TFT display is described
    by module [Tft]. *)
Inductive hud_display :=
| HPico (d : display)
| HQualia (d : display)
| HTFT.

Section Init.

(** [int(s)] on a string: an int, or [None] for a [ValueError]. *)
Variable int_of_str : string -> option Z.

Definition serial_branch (fam : family) (mk : display -> hud_display)
  (baud_var : string) (env : serial_env) : list effect * outcome hud_display :=
  let port_arg := getenv env (fam_env_var fam) in
  match int_of_str (getenv_default env baud_var "115200") with
  | None => ([], Raise ValueError)
  | Some _ =>
      let '(d, ef, r) := new_serial_display fam port_arg env in
      (ef, match r with Ret _ => Ret (mk d) | Raise e => Raise e end)
  end.

(** The display selection of [HUDClient.__init__]. *)
Definition init_display (env : serial_env) : list effect * outcome hud_display :=
  match select_display (display_type env) with
  | PicoKind => serial_branch pico HPico "PICO_BAUDRATE" env
  | QualiaKind => serial_branch esp32 HQualia "ESP32_BAUDRATE" env
  | TFTKind => ([], Ret HTFT)
  end.

End Init.

End App.

(** ** [TFTDisplay] (src/display.py, lines 40-284) *)

Module Tft.
Import Serial.

Inductive mode := Framebuffer | Pil | Simulation.

(** [_detect_display_mode()]: [os.path.exists(fb_device)], then
    [PIL_AVAILABLE]. *)
Definition detect_display_mode (fb_exists pil_available : bool) : mode :=
  if fb_exists then Framebuffer
  else if pil_available then Pil
  else Simulation.

(** [_init_display()]: [_init_framebuffer()] opens the device and falls
    back to simulation on any [Exception]; [_init_pil()] falls back when
    PIL is missing.  The result is [self.display_mode] afterwards. *)
Definition init_mode (fb_exists pil_available : bool) (open_fb : outcome unit) : outcome mode :=
  match detect_display_mode fb_exists pil_available with
  | Framebuffer =>
      match open_fb with
      | Ret _ => Ret Framebuffer
      | Raise e => if is_Exception e then Ret Simulation else Raise e
      end
  | Pil => if pil_available then Ret Pil else Ret Simulation
  | Simulation => Ret Simulation
  end.

Record tft := {
  width : nat;
  height : nat;
  display_mode : mode;
  tft_current_speed : option pyfloat }.

(** The RGB888 to RGB565 conversion of [_render_framebuffer]. *)
Definition rgb565 (r g b : Z) : Z :=
  Z.lor (Z.lor (Z.shiftl (Z.land r 0xF8) 8) (Z.shiftl (Z.land g 0xFC) 3)) (Z.shiftr b 3).

(** [rgb565_data]: pixel [i] of [pixels] (three bytes per pixel) gives
    bytes [2i] (low) and [2i+1] (high). *)
Definition pixel_bytes (pixels : list Z) (i : nat) : list Z :=
  let v := rgb565 (nth (3 * i) pixels 0) (nth (3 * i + 1) pixels 0) (nth (3 * i + 2) pixels 0) in
  [Z.land v 0xFF; Z.land (Z.shiftr v 8) 0xFF].

Definition rgb565_data (w h : nat) (pixels : list Z) : list Z :=
  flat_map (pixel_bytes pixels) (seq 0 (w * h)).

Inductive tft_effect :=
| FBWrite (bytes : list Z)      (* self.fb.write(rgb565_data) *)
| FBWriteFailed.                (* the write raised *)

Section Render.

(** [PIL_AVAILABLE]. *)
Variable pil_available : bool.
(** [image.tobytes('raw', 'RGB')] of the image drawn for a speed text. *)
Variable render : string -> list Z.
(** What [self.fb.write] / [self.fb.flush] do. *)
Variable fb_write : outcome unit.

(** [TFTDisplay.update_speed(speed)] with [_render_framebuffer] and
    [_render_pil]; [f"{int(speed):d}"] is computed before their [try]. *)
Definition update_speed (t : tft) (speed : pyfloat) : tft * list tft_effect * outcome unit :=
  let t1 := {| width := width t; height := height t; display_mode := display_mode t;
               tft_current_speed := Some speed |} in
  match display_mode t with
  | Framebuffer =>
      if negb pil_available then (t1, [], Ret tt) else
      match py_int speed with
      | Raise e => (t1, [], Raise e)
      | Ret n =>
          let data := rgb565_data (width t) (height t) (render (py_str_int n)) in
          match fb_write with
          | Ret _ => (t1, [FBWrite data], Ret tt)
          | Raise e => (t1, [FBWriteFailed], if is_Exception e then Ret tt else Raise e)
          end
      end
  | Pil =>
      if negb pil_available then (t1, [], Ret tt) else
      match py_int speed with
      | Raise e => (t1, [], Raise e)
      | Ret _ => (t1, [], Ret tt)
      end
  | Simulation => (t1, [], Ret tt)
  end.

End Render.

End Tft.

(** ** The line buffer of [main] in src/code.py (lines 559-566) *)

Module Device.
Import Text.

Definition newline : ascii := ascii_of_nat 10.

(** The whitespace that CircuitPython's [str.strip()] removes. *)
Definition is_space (c : ascii) : bool :=
  let n := nat_of_ascii c in ((9 <=? n)%nat && (n <=? 13)%nat) || (n =? 32)%nat.

Definition strip (s : string) : string := rstrip_by is_space (lstrip_by is_space s).

(** [buffer.split('\n', 1)] when ['\n' in buffer]. *)
Fixpoint split_nl (s : string) : option (string * string) :=
  match s with
  | EmptyString => None
  | String c s' =>
      if Ascii.eqb c newline then Some (EmptyString, s')
      else match split_nl s' with
           | Some (l, r) => Some (String c l, r)
           | None => None
           end
  end.

(** The [while '\n' in buffer] loop: the stripped non-empty lines, in
    order, and the buffer left over.  Each pass removes at least one
    character, so [String.length buffer] passes suffice. *)
Fixpoint drain (fuel : nat) (buffer : string) : list string * string :=
  match fuel with
  | O => ([], buffer)
  | S f =>
      match split_nl buffer with
      | None => ([], buffer)
      | Some (line, rest) =>
          let line' := strip line in
          let '(ls, b) := drain f rest in
          ((if String.eqb line' "" then ls else line' :: ls), b)
      end
  end.

Definition complete_lines (buffer : string) : list string * string :=
  drain (String.length buffer) buffer.

End Device.

(** ** Notions used to state the properties *)

Module Props.
Import Parser Serial Client.

(** The integer part of a number: rounded toward zero. *)
Definition integer_part (q : Q) : Z :=
  if Qle_bool 0 q then Qfloor q else Qceiling q.

(** Successive [update_speed] calls with the same surroundings. *)
Fixpoint update_all (fam : family) (env : serial_env) (st : display)
  (vs : list pyfloat) : display * list effect :=
  match vs with
  | [] => (st, [])
  | v :: rest =>
      let '(st1, ef1, _) := update_speed fam v env st in
      let '(st2, ef2) := update_all fam env st1 rest in
      (st2, (ef1 ++ ef2)%list)
  end.

(** The bytes that reached the wire. *)
Fixpoint wire (ef : list effect) : list string :=
  match ef with
  | [] => []
  | EWrite b :: rest => b :: wire rest
  | _ :: rest => wire rest
  end.

(** A failure of an operation is an [Exception] (not a [KeyboardInterrupt]). *)
Definition raises_Exception {A} (o : outcome A) : Prop :=
  match o with
  | Raise e => is_Exception e = true
  | Ret _ => True
  end.

(** The surroundings only fail with [Exception]s. *)
Definition env_fails_with_Exception (env : serial_env) : Prop :=
  raises_Exception (comports env) /\
  (forall p, raises_Exception (open_result env p)) /\
  raises_Exception (write_result env) /\
  raises_Exception (flush_result env).

(** A method returns normally from every state. *)
Definition returns {A} (m : M A) (env : serial_env) : Prop :=
  forall st, exists st' ef a, m env st = (st', ef, Ret a).

(** A method raises [Exception]s only. *)
Definition raises_only_Exception {A} (m : M A) (env : serial_env) : Prop :=
  forall st st' ef e, m env st = (st', ef, Raise e) -> is_Exception e = true.

(** The values of the frames that [parse] turns into a reading. *)
Fixpoint parsed_values (parse : string -> outcome (option pyfloat))
  (evs : list sse_event) : list pyfloat :=
  match evs with
  | [] => []
  | ev :: rest =>
      if String.eqb (data ev) "" then parsed_values parse rest
      else
        match parse (data ev) with
        | Ret (Some v) => v :: parsed_values parse rest
        | _ => parsed_values parse rest
        end
  end.

(** [parse] raises on none of the frames. *)
Definition parses_without_raising (parse : string -> outcome (option pyfloat))
  (evs : list sse_event) : Prop :=
  Forall (fun ev => forall e, parse (data ev) <> Raise e) evs.

(** A failed connection: [requests.get] or [raise_for_status] raised an
    [Exception]. *)
Definition connect_failure (a : attempt) : Prop :=
  match a with
  | ConnectRaises e => is_Exception e = true
  | Connected _ _ => False
  end.

End Props.

(** ** Sample surroundings for evaluating the code *)

Module Samples.
Import Parser Serial Client.

(** A board listed as a generic USB serial adapter. *)
Definition usb_port : port_info :=
  {| device := "/dev/ttyACM0"; description := "USB Serial Device"; vid := None |}.

(** Everything works. *)
Definition env_ok : serial_env := {|
  getenv := fun _ => None;
  serial_available := true;
  comports := Ret [usb_port];
  open_result := fun _ => Ret tt;
  write_result := Ret tt;
  flush_result := Ret tt;
  close_result := Ret tt |}.

(** The write raises [SerialException]; reopening works. *)
Definition env_write_fails : serial_env := {|
  getenv := fun _ => None;
  serial_available := true;
  comports := Ret [usb_port];
  open_result := fun _ => Ret tt;
  write_result := Raise SerialException;
  flush_result := Ret tt;
  close_result := Ret tt |}.

(** A display object whose port is open. *)
Definition open_display : display :=
  {| port := Some "/dev/ttyACM0"; ser := Some "/dev/ttyACM0"; current_speed := None |}.

(** The frame [data: {"value": 30}]. *)
Definition frame30 : sse_event := {| event := "message"; data := obj_text "value" "30" |}.

Definition sample_parse : string -> outcome (option pyfloat) :=
  parse_event_data sample_float_of_str sample_loads.

(** [int()] on the one baud rate the samples use. *)
Definition sample_int_of_str (s : string) : option Z :=
  if String.eqb s "115200" then Some 115200 else None.

(** [DISPLAY_TYPE=pico] with the board's port given; everything works. *)
Definition env_pico : serial_env := {|
  getenv := fun k =>
    if String.eqb k "DISPLAY_TYPE" then Some "pico"
    else if String.eqb k "PICO_SERIAL_PORT" then Some "/dev/ttyACM0" else None;
  serial_available := true;
  comports := Ret [usb_port];
  open_result := fun _ => Ret tt;
  write_result := Ret tt;
  flush_result := Ret tt;
  close_result := Ret tt |}.

End Samples.

(** ** Further notions used to state the properties *)

Module Notions.
Import Serial.

(** The test that [scan_ports] applies to one port. *)
Definition port_matches (fam : family) (p : port_info) : bool :=
  existsb (fun identifier => py_in identifier (description p)) (fam_identifiers fam) ||
  match vid p with Some v => fam_vid_match fam v | None => false end.

(** A method leaves [current_speed] as it found it. *)
Definition keeps_speed {A} (m : M A) : Prop :=
  forall env st, current_speed (fst (fst (m env st))) = current_speed st.

(** Each value differs ([!=]) from the one displayed before it. *)
Fixpoint displayed_distinct {V} (V_neq : V -> V -> bool) (prev : option V) (l : list V) : Prop :=
  match l with
  | [] => True
  | v :: rest => Throttle.py_ne V V_neq (Some v) prev = true /\ displayed_distinct V_neq (Some v) rest
  end.

(** The last number among the lines, or [acc] when there is none. *)
Definition last_valid {V} (acc : option V) (lines : list (option V)) : option V :=
  fold_left (fun a l => match l with Some v => Some v | None => a end) lines acc.

(** Strings written one after the other. *)
Definition stream (ws : list string) : string := fold_right append EmptyString ws.

(** A string with no newline character. *)
Definition no_newline (s : string) : Prop :=
  forall c, In c (list_ascii_of_string s) -> Ascii.eqb c Device.newline = false.

End Notions.

(** * Proofs *)

Import Parser Serial Client Props.

(** ** The event parser *)

(** C1 (code_bug): the key is chosen with Python's [or], which skips a
    present key bound to a falsy value: a reading of [0] under
    [VDM_VehicleSpeed] or [value] yields [None], and a [0] under
    [VDM_VehicleSpeed] gives way to a later key. *)
Theorem parse_zero_reading_skipped :
  forall float_of_str : string -> option pyfloat,
    parse_loaded float_of_str (Decoded (JObj [("value", JNum (PFinite 0))])) = Ret None /\
    parse_loaded float_of_str
      (Decoded (JObj [("VDM_VehicleSpeed", JNum (PFinite 0))])) = Ret None /\
    parse_loaded float_of_str
      (Decoded (JObj [("VDM_VehicleSpeed", JNum (PFinite 0));
                      ("value", JNum (PFinite 5))])) = Ret (Some (PFinite 5)).
Proof. intros; repeat split; reflexivity. Qed.

(** C2 (code_bug): valid JSON that is not an object makes
    [parse_event_data] raise [AttributeError] (from [data.get]), which
    leaves the frame loop through [except Exception]: the retry counter is
    incremented and the client sleeps before reconnecting. *)
Theorem parse_non_object_raises :
  parse_event_data sample_float_of_str sample_loads "42" = Raise AttributeError /\
  connect_and_display default_client
    (parse_event_data sample_float_of_str sample_loads)
    [Connected [{| event := "message"; data := "42" |}] StreamClosed]
  = ([RAttempt; RConnected; RSleep 5], AwaitingAttempt).
Proof. split; reflexivity. Qed.

(** ** Port discovery *)

Lemma existsb_member {A} (f : A -> bool) (x : A) (l : list A) :
  In x l -> f x = true -> existsb f l = true.
Proof.
  intros Hin Hf. apply existsb_exists. exists x. auto.
Qed.

Lemma scan_ports_usb_serial (fam : family) (p : port_info) (rest : list port_info) :
  In "USB Serial" (fam_identifiers fam) ->
  py_in "USB Serial" (description p) = true ->
  scan_ports fam (p :: rest) = Some (device p).
Proof.
  intros Hid Hd. simpl.
  rewrite (existsb_member _ "USB Serial" _ Hid Hd). reflexivity.
Qed.

Lemma scan_ports_some_if_member (fam : family) (pre post : list port_info)
  (p : port_info) :
  In "USB Serial" (fam_identifiers fam) ->
  py_in "USB Serial" (description p) = true ->
  scan_ports fam (pre ++ p :: post) <> None.
Proof.
  intros Hid Hd. induction pre as [|q pre IH]; simpl.
  - rewrite (existsb_member _ "USB Serial" _ Hid Hd). discriminate.
  - destruct (existsb _ _); [discriminate|].
    destruct (match vid q with Some v => fam_vid_match fam v | None => false end);
      [discriminate | exact IH].
Qed.

Lemma find_port_autodetect (fam : family) (env : serial_env) (st : display)
  (ports : list port_info) :
  truthy_str (port st) = false ->
  truthy_str (getenv env (fam_env_var fam)) = false ->
  serial_available env = true ->
  comports env = Ret ports ->
  find_port fam env st = (st, [], Ret (scan_ports fam ports)).
Proof.
  intros Hp He Ha Hc. unfold find_port, bind, get, ask, try_except, list_comports, ret.
  simpl. rewrite Hp. simpl. rewrite He, Ha. simpl. rewrite Hc. reflexivity.
Qed.

(** C10: a port whose description contains [USB Serial] is matched by the
    Pico search and by the ESP32 search: with no override, when it is the
    first port listed both locators return it, and wherever it is listed
    neither locator comes back empty. *)
Theorem usb_serial_matches_both_families :
  forall (env : serial_env) (st : display) (pre post : list port_info) (p : port_info),
    py_in "USB Serial" (description p) = true ->
    truthy_str (port st) = false ->
    truthy_str (getenv env "PICO_SERIAL_PORT") = false ->
    truthy_str (getenv env "ESP32_SERIAL_PORT") = false ->
    serial_available env = true ->
    (comports env = Ret (p :: post) ->
       find_port pico env st = (st, [], Ret (Some (device p))) /\
       find_port esp32 env st = (st, [], Ret (Some (device p)))) /\
    scan_ports pico (pre ++ p :: post) <> None /\
    scan_ports esp32 (pre ++ p :: post) <> None.
Proof.
  intros env st pre post p Hd Hp Hpe Hee Ha.
  assert (Hpi : In "USB Serial" (fam_identifiers pico)) by (simpl; tauto).
  assert (Hei : In "USB Serial" (fam_identifiers esp32)) by (simpl; tauto).
  split; [|split].
  - intros Hc. split.
    + rewrite (find_port_autodetect pico env st (p :: post) Hp Hpe Ha Hc).
      rewrite (scan_ports_usb_serial pico p post Hpi Hd). reflexivity.
    + rewrite (find_port_autodetect esp32 env st (p :: post) Hp Hee Ha Hc).
      rewrite (scan_ports_usb_serial esp32 p post Hei Hd). reflexivity.
  - exact (scan_ports_some_if_member pico pre post p Hpi Hd).
  - exact (scan_ports_some_if_member esp32 pre post p Hei Hd).
Qed.


(** ** The line format *)

Lemma digit_val_char (d : Z) :
  0 <= d < 10 -> digit_val (digit_char d) = Some d.
Proof.
  intros H.
  assert (d = 0 \/ d = 1 \/ d = 2 \/ d = 3 \/ d = 4 \/ d = 5 \/ d = 6 \/ d = 7
          \/ d = 8 \/ d = 9) as Hd by lia.
  repeat destruct Hd as [-> | Hd]; try reflexivity; subst; reflexivity.
Qed.
Lemma digit_char_not_minus (d : Z) :
  0 <= d < 10 -> Ascii.eqb (digit_char d) "-" = false.
Proof.
  intros H.
  assert (d = 0 \/ d = 1 \/ d = 2 \/ d = 3 \/ d = 4 \/ d = 5 \/ d = 6 \/ d = 7
          \/ d = 8 \/ d = 9) as Hd by lia.
  repeat destruct Hd as [-> | Hd]; try reflexivity; subst; reflexivity.
Qed.

Lemma digits_aux_value (f : nat) :
  forall n acc a, 0 <= n -> n < 10 ^ Z.of_nat f ->
  exists k : nat, digits_value (digits_aux f n acc) a = digits_value acc (a * 10 ^ Z.of_nat k + n).
Proof.
  induction f as [|f IH]; intros n acc a Hn Hlt.
  - exists O. cbn [digits_aux]. change (10 ^ Z.of_nat 0) with 1 in *.
    replace (a * 1 + n) with a by lia.
    reflexivity.
  - cbn [digits_aux].
    assert (Hm : 0 <= n mod 10 < 10) by (apply Z.mod_pos_bound; lia).
    destruct (Z.ltb_spec n 10) as [Hs|Hs].
    + exists 1%nat. cbn [digits_value]. rewrite (digit_val_char _ Hm).
      rewrite Z.mod_small by lia. f_equal. change (10 ^ Z.of_nat 1) with 10. lia.
    + assert (Hq : 0 <= n / 10) by (apply Z.div_pos; lia).
      assert (Hq' : n / 10 < 10 ^ Z.of_nat f).
      { apply Z.div_lt_upper_bound; [lia|].
        rewrite Nat2Z.inj_succ, Z.pow_succ_r in Hlt by lia. lia. }
      destruct (IH (n / 10) (String (digit_char (n mod 10)) acc) a Hq Hq') as [k Hk].
      exists (S k). rewrite Hk. cbn [digits_value]. rewrite (digit_val_char _ Hm).
      f_equal. rewrite Nat2Z.inj_succ, Z.pow_succ_r by lia.
      rewrite (Z.div_mod n 10) at 3 by lia. ring.
Qed.
Lemma digits_aux_head (f : nat) :
  forall n acc, exists c r, digits_aux (S f) n acc = String c r /\ Ascii.eqb c "-" = false.
Proof.
  induction f as [|f IH]; intros n acc.
  - cbn [digits_aux]. assert (Hm : 0 <= n mod 10 < 10) by (apply Z.mod_pos_bound; lia).
    destruct (Z.ltb n 10); eexists; eexists; (split; [reflexivity|]);
      apply digit_char_not_minus; exact Hm.
  - cbn [digits_aux]. assert (Hm : 0 <= n mod 10 < 10) by (apply Z.mod_pos_bound; lia).
    destruct (Z.ltb n 10).
    + eexists; eexists; split; [reflexivity|]. apply digit_char_not_minus; exact Hm.
    + apply IH.
Qed.

Lemma str_nonneg_bound (n : Z) :
  0 <= n -> n < 10 ^ Z.of_nat (S (Z.to_nat (Z.log2 n))).
Proof.
  intros Hn. rewrite Nat2Z.inj_succ, Z2Nat.id by apply Z.log2_nonneg.
  apply Z.lt_le_trans with (2 ^ Z.succ (Z.log2 n)).
  - destruct (Z.eq_dec n 0) as [->|Hne].
    + simpl. lia.
    + apply Z.log2_spec. lia.
  - apply Z.pow_le_mono_l. split; [lia|lia].
Qed.

Lemma str_nonneg_value (n : Z) :
  0 <= n -> digits_value (str_nonneg n) 0 = Some n.
Proof.
  intros Hn. unfold str_nonneg.
  destruct (digits_aux_value _ n "" 0 Hn (str_nonneg_bound n Hn)) as [k Hk].
  rewrite Hk. reflexivity.
Qed.

Lemma py_str_int_value (z : Z) : decimal_value (py_str_int z) = Some z.
Proof.
  unfold py_str_int. destruct (Z.ltb_spec z 0) as [Hz|Hz].
  - cbn [append]. unfold decimal_value. rewrite Ascii.eqb_refl.
    unfold str_nonneg.
    destruct (digits_aux_head (Z.to_nat (Z.log2 (- z))) (- z) "") as [c [r [Hcr _]]].
    rewrite Hcr. rewrite <- Hcr. fold (str_nonneg (- z)).
    rewrite str_nonneg_value by lia. simpl. f_equal. lia.
  - unfold decimal_value, str_nonneg.
    destruct (digits_aux_head (Z.to_nat (Z.log2 z)) z "") as [c [r [Hcr Hc]]].
    rewrite Hcr, Hc. rewrite <- Hcr. fold (str_nonneg z). apply str_nonneg_value. lia.
Qed.

Lemma integer_part_int (q : Q) :
  py_int (PFinite q) = Ret (integer_part q).
Proof.
  destruct q as [n d]. unfold py_int, integer_part. cbn [Qnum Qden].
  f_equal. unfold Qle_bool, Qceiling, Qfloor, Qopp. cbn [Qnum Qden].
  rewrite Z.mul_0_l, Z.mul_1_r.
  destruct (Z.leb_spec 0 n) as [Hn|Hn].
  - apply Z.quot_div_nonneg; lia.
  - rewrite <- (Z.opp_involutive n) at 1. rewrite Z.quot_opp_l by lia.
    rewrite Z.quot_div_nonneg by lia. reflexivity.
Qed.
Lemma update_speed_open_ok (fam : family) (env : serial_env) (st : display)
  (q : Q) (h : string) :
  ser st = Some h ->
  write_result env = Ret tt ->
  flush_result env = Ret tt ->
  update_speed fam (PFinite q) env st =
    ({| port := port st; ser := Some h; current_speed := Some (PFinite q) |},
     [EWrite (py_str_int (integer_part q) ++ nl); EFlush], Ret tt).
Proof.
  intros Hs Hw Hf.
  unfold update_speed, set_current_speed, bind, get, put, try_except, lift,
    ser_write, ser_flush.
  cbn -[py_int py_str_int append]. rewrite Hs, integer_part_int, Hw, Hf.
  reflexivity.
Qed.

(** C7: on an open port whose write and flush succeed, [update_speed v]
    makes exactly one write, of the decimal text of the integer part of
    [v] (read back by [decimal_value]: an optional [-] and digits only)
    followed by one newline, then a flush. *)
Theorem update_speed_writes_one_line :
  forall (fam : family) (env : serial_env) (st : display) (q : Q) (h : string),
    ser st = Some h ->
    write_result env = Ret tt ->
    flush_result env = Ret tt ->
    exists body : string,
      update_speed fam (PFinite q) env st =
        ({| port := port st; ser := Some h; current_speed := Some (PFinite q) |},
         [EWrite (body ++ nl); EFlush], Ret tt) /\
      decimal_value body = Some (integer_part q).
Proof.
  intros fam env st q h Hs Hw Hf.
  exists (py_str_int (integer_part q)). split; [|apply py_str_int_value].
  apply update_speed_open_ok; assumption.
Qed.

(** ** No exception leaves [update_speed] *)

Lemma returns_ret {A} (a : A) env : returns (ret a) env.
Proof. intros st. exists st, [], a. reflexivity. Qed.

Lemma returns_bind {A B} (m : M A) (k : A -> M B) env :
  returns m env -> (forall a, returns (k a) env) -> returns (bind m k) env.
Proof.
  intros Hm Hk st. destruct (Hm st) as (st1 & ef1 & a & E).
  destruct (Hk a st1) as (st2 & ef2 & b & E2).
  exists st2, (ef1 ++ ef2)%list, b. unfold bind. rewrite E, E2. reflexivity.
Qed.

Lemma returns_try {A} (m : M A) handler env :
  (forall st st' ef e, m env st = (st', ef, Raise e) ->
     exists h, handler e = Some h /\ returns h env) ->
  returns (try_except m handler) env.
Proof.
  intros H st. unfold try_except.
  destruct (m env st) as [[st1 ef1] r] eqn:E. destruct r as [a|e].
  - exists st1, ef1, a. reflexivity.
  - destruct (H st st1 ef1 e E) as (h & Hh & Hr). rewrite Hh.
    destruct (Hr st1) as (st2 & ef2 & b & E2). rewrite E2.
    exists st2, (ef1 ++ ef2)%list, b. reflexivity.
Qed.

Lemma returns_try_Exception {A} (m : M A) handler env :
  raises_only_Exception m env ->
  (forall e, is_Exception e = true -> exists h, handler e = Some h /\ returns h env) ->
  returns (try_except m handler) env.
Proof.
  intros Hm Hh. apply returns_try. intros st st' ef e E. apply Hh. exact (Hm _ _ _ _ E).
Qed.

Lemma raises_bind {A B} (m : M A) (k : A -> M B) env :
  raises_only_Exception m env -> (forall a, raises_only_Exception (k a) env) ->
  raises_only_Exception (bind m k) env.
Proof.
  intros Hm Hk st st' ef e. unfold bind.
  destruct (m env st) as [[st1 ef1] r] eqn:E. destruct r as [a|e1].
  - destruct (k a env st1) as [[st2 ef2] r2] eqn:E2. intros [= <- <- ->].
    exact (Hk a _ _ _ _ E2).
  - intros [= <- <- ->]. exact (Hm _ _ _ _ E).
Qed.

Lemma raises_returns {A} (m : M A) env : returns m env -> raises_only_Exception m env.
Proof.
  intros H st st' ef e E. destruct (H st) as (? & ? & ? & E'). congruence.
Qed.

Lemma raises_of_outcome {A} (m : M A) env (o : outcome A) :
  (forall st, exists st' ef, m env st = (st', ef, o)) -> raises_Exception o ->
  raises_only_Exception m env.
Proof.
  intros H Ho st st' ef e E. destruct (H st) as (st2 & ef2 & E2). rewrite E in E2.
  injection E2 as _ _ Heo. subst o. exact Ho.
Qed.

Lemma returns_get env : returns get env.
Proof. intros st. exists st, [], st. reflexivity. Qed.
Lemma returns_ask env : returns ask env.
Proof. intros st. exists st, [], env. reflexivity. Qed.
Lemma returns_put st' env : returns (put st') env.
Proof. intros st. exists st', [], tt. reflexivity. Qed.
Lemma returns_sleep n env : returns (sleep n) env.
Proof. intros st. exists st, [ESleep n], tt. reflexivity. Qed.
Lemma returns_set_ser s env : returns (set_ser s) env.
Proof. unfold set_ser. apply returns_bind; [apply returns_get|]. intros; apply returns_put. Qed.
Lemma returns_set_port s env : returns (set_port s) env.
Proof. unfold set_port. apply returns_bind; [apply returns_get|]. intros; apply returns_put. Qed.
Lemma returns_set_current_speed v env : returns (set_current_speed v) env.
Proof. unfold set_current_speed. apply returns_bind; [apply returns_get|]. intros; apply returns_put. Qed.

Create HintDb returns_db.
#[local] Hint Resolve returns_ret returns_get returns_ask returns_put returns_sleep
  returns_set_ser returns_set_port returns_set_current_speed : returns_db.

Lemma returns_on_Exception {A} (h : M A) env :
  returns h env ->
  forall e, is_Exception e = true -> exists h', on_Exception h e = Some h' /\ returns h' env.
Proof. intros H e He. unfold on_Exception. rewrite He. eauto. Qed.

Lemma returns_find_port fam env :
  env_fails_with_Exception env -> returns (find_port fam) env.
Proof.
  intros (Hc & Ho & Hw & Hf). unfold find_port.
  apply returns_bind; auto with returns_db. intros st.
  destruct (truthy_str (port st)); auto with returns_db.
  apply returns_bind; auto with returns_db. intros env'.
  destruct (truthy_str _); auto with returns_db.
  destruct (negb _); auto with returns_db.
  apply returns_try_Exception; [|apply returns_on_Exception; auto with returns_db].
  apply raises_bind; [|intros; apply raises_returns; auto with returns_db].
  apply (raises_of_outcome _ _ (comports env)); [|exact Hc].
  intros st0. exists st0, []. reflexivity.
Qed.

Lemma returns_init_serial fam env :
  env_fails_with_Exception env -> returns (init_serial fam) env.
Proof.
  intros Henv. pose proof Henv as (Hc & Ho & Hw & Hf). unfold init_serial.
  apply returns_bind; auto with returns_db. intros env'.
  destruct (negb _); auto with returns_db.
  apply returns_bind; [apply returns_find_port; exact Henv|]. intros [p|]; auto with returns_db.
  destruct (String.eqb p ""); auto with returns_db.
  apply returns_try_Exception; [|apply returns_on_Exception; auto with returns_db].
  apply raises_bind.
  - apply (raises_of_outcome _ _ (match open_result env p with Ret _ => Ret p | Raise e => Raise e end)).
    + intros st. unfold serial_open. destruct (open_result env p); eexists; eexists; reflexivity.
    + specialize (Ho p). destruct (open_result env p); exact Ho.
  - intros h. apply raises_returns.
    repeat (apply returns_bind; auto with returns_db; intros).
Qed.

Lemma returns_reconnect fam env :
  env_fails_with_Exception env -> returns (reconnect fam) env.
Proof.
  intros Henv. unfold reconnect.
  apply returns_bind; auto with returns_db. intros st.
  apply returns_bind.
  - destruct (ser st); [|auto with returns_db].
    apply returns_bind; auto with returns_db.
    apply returns_try. intros; eauto with returns_db.
  - intros _. apply returns_bind; auto with returns_db. intros _.
    apply returns_init_serial; exact Henv.
Qed.

(** C9: when the surroundings fail only with [Exception]s (serial errors,
    [ValueError]/[OverflowError] of [int()]), [update_speed] on either
    serial display returns normally from every state: errors of the port
    search, of opening, writing and flushing are all caught inside. *)
Theorem update_speed_never_raises :
  forall (fam : family) (env : serial_env) (st : display) (speed : pyfloat),
    env_fails_with_Exception env ->
    exists st' ef, update_speed fam speed env st = (st', ef, Ret tt).
Proof.
  intros fam env st speed Henv. pose proof Henv as (Hc & Ho & Hw & Hf).
  assert (H : returns (update_speed fam speed) env).
  { unfold update_speed.
    apply returns_bind; auto with returns_db. intros _.
    apply returns_bind; auto with returns_db. intros st0.
    destruct (ser st0); [|auto with returns_db].
    apply returns_try_Exception.
    - apply raises_bind.
      + apply (raises_of_outcome _ _ (py_int speed)).
        * intros st1. exists st1, []. reflexivity.
        * destruct speed; reflexivity.
      + intros n. apply raises_bind.
        * apply (raises_of_outcome _ _ (match write_result env with Ret _ => Ret tt | Raise e => Raise e end)).
          -- intros st1. unfold ser_write. destruct (write_result env); eexists; eexists; reflexivity.
          -- destruct (write_result env); exact Hw.
        * intros _. apply (raises_of_outcome _ _ (flush_result env)); [|exact Hf].
          intros st1. eexists; eexists; reflexivity.
    - intros e He. destruct e; try discriminate He;
        (exists (reconnect fam); split; [reflexivity|apply returns_reconnect; exact Henv])
        || (exists (ret tt); split; [reflexivity|auto with returns_db]). }
  destruct (H st) as (st' & ef & [] & E). exists st', ef. exact E.
Qed.


(** ** Reconnection after a failed write *)

Lemma update_speed_reconnect_shape :
  forall (fam : family) (env : serial_env) (st : display) (speed : pyfloat)
         (h : string) (n : Z),
    ser st = Some h ->
    py_int speed = Ret n ->
    let st1 := {| port := port st; ser := None; current_speed := Some speed |} in
    let msg := (py_str_int n ++ nl)%string in
    (write_result env = Raise SerialException ->
       update_speed fam speed env st =
         (let '(st2, ef2, r2) := init_serial fam env st1 in
          (st2, EWriteFailed msg :: EClose :: ESleep 1 :: ef2, r2))) /\
    (write_result env = Ret tt ->
     flush_result env = Raise SerialException ->
       update_speed fam speed env st =
         (let '(st2, ef2, r2) := init_serial fam env st1 in
          (st2, EWrite msg :: EFlush :: EClose :: ESleep 1 :: ef2, r2))).
Proof.
  intros fam env st speed h n Hs Hn st1 msg. subst st1 msg. split.
  - intros Hw. unfold update_speed, reconnect, set_current_speed, set_ser, bind, get, put,
      try_except, lift, ser_write, ser_flush, ser_close, sleep, ret.
    cbn -[init_serial py_str_int append py_int]. rewrite Hs, Hn, Hw.
    cbn -[init_serial py_str_int append].
    destruct (close_result env); cbn -[init_serial py_str_int append];
      destruct (init_serial fam env _) as [[st2 ef2] r2]; reflexivity.
  - intros Hw Hf. unfold update_speed, reconnect, set_current_speed, set_ser, bind, get, put,
      try_except, lift, ser_write, ser_flush, ser_close, sleep, ret.
    cbn -[init_serial py_str_int append py_int]. rewrite Hs, Hn, Hw, Hf.
    cbn -[init_serial py_str_int append].
    destruct (close_result env); cbn -[init_serial py_str_int append];
      destruct (init_serial fam env _) as [[st2 ef2] r2]; reflexivity.
Qed.


Lemma update_speed_no_port (fam : family) (env : serial_env) (st : display)
  (speed : pyfloat) :
  ser st = None ->
  update_speed fam speed env st =
    ({| port := port st; ser := None; current_speed := Some speed |}, [], Ret tt).
Proof.
  intros Hs. unfold update_speed, set_current_speed, bind, get, put, ret.
  cbn. rewrite Hs. reflexivity.
Qed.

Lemma update_speed_open_writes (fam : family) (env : serial_env) (st : display)
  (speed : pyfloat) (h : string) (n : Z) :
  ser st = Some h ->
  py_int speed = Ret n ->
  write_result env = Ret tt ->
  flush_result env = Ret tt ->
  update_speed fam speed env st =
    ({| port := port st; ser := Some h; current_speed := Some speed |},
     [EWrite (py_str_int n ++ nl); EFlush], Ret tt).
Proof.
  intros Hs Hn Hw Hf.
  unfold update_speed, set_current_speed, bind, get, put, try_except, lift,
    ser_write, ser_flush.
  cbn -[py_int py_str_int append]. rewrite Hs, Hn, Hw, Hf.
  reflexivity.
Qed.

(** C3 (counterexample): a write that raises [SerialException] is retried
    inside the same call: the port is closed and opened again before
    [update_speed] returns, and the next call writes without opening. *)
Lemma write_failure_reopens_in_same_call :
  let '(st1, ef1, r1) :=
    update_speed pico (PFinite 30) Samples.env_write_fails Samples.open_display in
  ef1 = [EWriteFailed ("30" ++ nl); EClose; ESleep 1; EOpen "/dev/ttyACM0"; ESleep 2] /\
  r1 = Ret tt /\
  snd (fst (update_speed pico (PFinite 30) Samples.env_ok st1)) = [EWrite ("30" ++ nl); EFlush].
Proof. vm_compute. repeat split. Qed.

(** C3 (amended): when the write or the flush in [update_speed] raises
    [SerialException], the same call closes the port, sleeps 1 s and runs
    [_init_serial] once (port lookup and at most one open); a call made
    while no port is open opens nothing and writes nothing; a call made
    while a port is open (for instance after a successful reopen) writes
    the line directly, without closing or opening. *)
Theorem update_speed_reopens_within_call :
  (forall (fam : family) (env : serial_env) (st : display) (speed : pyfloat)
          (h : string) (n : Z),
     ser st = Some h ->
     py_int speed = Ret n ->
     let st1 := {| port := port st; ser := None; current_speed := Some speed |} in
     let msg := (py_str_int n ++ nl)%string in
     (write_result env = Raise SerialException ->
        update_speed fam speed env st =
          (let '(st2, ef2, r2) := init_serial fam env st1 in
           (st2, EWriteFailed msg :: EClose :: ESleep 1 :: ef2, r2))) /\
     (write_result env = Ret tt ->
      flush_result env = Raise SerialException ->
        update_speed fam speed env st =
          (let '(st2, ef2, r2) := init_serial fam env st1 in
           (st2, EWrite msg :: EFlush :: EClose :: ESleep 1 :: ef2, r2)))) /\
  (forall (fam : family) (env : serial_env) (st : display) (speed : pyfloat),
     ser st = None ->
     update_speed fam speed env st =
       ({| port := port st; ser := None; current_speed := Some speed |}, [], Ret tt)) /\
  (forall (fam : family) (env : serial_env) (st : display) (speed : pyfloat)
          (h : string) (n : Z),
     ser st = Some h ->
     py_int speed = Ret n ->
     write_result env = Ret tt ->
     flush_result env = Ret tt ->
     update_speed fam speed env st =
       ({| port := port st; ser := Some h; current_speed := Some speed |},
        [EWrite (py_str_int n ++ nl); EFlush], Ret tt)).
Proof.
  split; [|split].
  - exact update_speed_reconnect_shape.
  - exact update_speed_no_port.
  - exact update_speed_open_writes.
Qed.

(** ** The connection retry loop *)

Lemma count_attempts_app (l1 l2 : list run_event) :
  count_attempts (l1 ++ l2) = (count_attempts l1 + count_attempts l2)%nat.
Proof. induction l1 as [|x l1 IH]; [reflexivity|]. destruct x; cbn; rewrite ?IH; reflexivity. Qed.

Lemma run_connect_failures (parse : string -> outcome (option pyfloat)) (c : hud_client) :
  forall (pre rest : list attempt) (rc : Z),
    pre <> [] ->
    Forall connect_failure pre ->
    rc + Z.of_nat (length pre) = max_retries c ->
    run parse c rc (pre ++ rest) = run parse c rc pre /\
    count_attempts (fst (run parse c rc pre)) = length pre /\
    exists e, snd (run parse c rc pre) = Raised e.
Proof.
  induction pre as [|a pre IH]; intros rest rc Hne Hf Hlen; [congruence|].
  inversion Hf as [|? ? Ha Hf']; subst.
  destruct a as [e|evs fin]; [|contradiction]. cbn in Ha.
  cbn [length] in Hlen. rewrite Nat2Z.inj_succ in Hlen.
  cbn [app run]. destruct (Z.ltb_spec rc (max_retries c)) as [_|]; [|lia].
  cbn [try_body].
  destruct (Z.ltb_spec (rc + 1) (max_retries c)) as [Hlt|Hge].
  - destruct pre as [|a' pre']; [cbn in Hlen; lia|].
    destruct (IH rest (rc + 1) ltac:(discriminate) Hf' ltac:(lia)) as (E & Hc & Hr).
    destruct e; try discriminate Ha;
      (unfold prepend; rewrite E; cbn [fst snd];
       split; [reflexivity|]; split; [|exact Hr];
       rewrite count_attempts_app, Hc; reflexivity).
  - destruct pre; [|cbn [length] in Hlen; lia].
    destruct e; try discriminate Ha;
      (split; [reflexivity|]; split; [reflexivity|]; eexists; reflexivity).
Qed.

Lemma run_after_connection (parse : string -> outcome (option pyfloat)) (c : hud_client)
  (rc1 rc2 : Z) (evs : list sse_event) (fin : stream_end) (rest : list attempt) :
  rc1 < max_retries c -> rc2 < max_retries c ->
  run parse c rc1 (Connected evs fin :: rest) = run parse c rc2 (Connected evs fin :: rest).
Proof.
  intros H1 H2. cbn [run].
  destruct (Z.ltb_spec rc1 (max_retries c)); [|lia].
  destruct (Z.ltb_spec rc2 (max_retries c)); [|lia].
  reflexivity.
Qed.

(** C6: from any retry count [rc], [max_retries - rc] consecutive failed
    connections end the loop by re-raising, after exactly that many
    attempts and without consuming any further network answer; and once a
    connection succeeds, what follows no longer depends on the count it
    started from (the counter is reset to 0). *)
Theorem retry_budget_stops_and_resets :
  forall (parse : string -> outcome (option pyfloat)) (c : hud_client),
    (forall (pre rest : list attempt) (rc : Z),
       pre <> [] ->
       Forall connect_failure pre ->
       rc + Z.of_nat (length pre) = max_retries c ->
       run parse c rc (pre ++ rest) = run parse c rc pre /\
       count_attempts (fst (run parse c rc pre)) = length pre /\
       exists e, snd (run parse c rc pre) = Raised e) /\
    (forall (rc : Z) (evs : list sse_event) (fin : stream_end) (rest : list attempt),
       0 <= rc < max_retries c ->
       run parse c rc (Connected evs fin :: rest) = run parse c 0 (Connected evs fin :: rest)).
Proof.
  intros parse c. split.
  - apply run_connect_failures.
  - intros rc evs fin rest Hrc. apply run_after_connection; lia.
Qed.

Lemma retry_budget_stops_and_resets_witness :
  (Forall connect_failure (repeat (ConnectRaises RequestException) 10) /\
    (0 <= 3 < max_retries default_client)) /\
   (run Samples.sample_parse default_client 0
     (repeat (ConnectRaises RequestException) 10 ++ [Connected [] StreamClosed])
   = run Samples.sample_parse default_client 0 (repeat (ConnectRaises RequestException) 10) /\
    count_attempts (fst (run Samples.sample_parse default_client 0
                          (repeat (ConnectRaises RequestException) 10))) = 10%nat /\
    exists e, snd (run Samples.sample_parse default_client 0
                    (repeat (ConnectRaises RequestException) 10)) = Raised e) /\
   run Samples.sample_parse default_client 3 [Connected [Samples.frame30] StreamClosed]
  = run Samples.sample_parse default_client 0 [Connected [Samples.frame30] StreamClosed].
Proof.
  assert (Hf : Forall connect_failure (repeat (ConnectRaises RequestException) 10))
    by (repeat constructor).
  assert (Hb : 0 <= 3 < max_retries default_client) by (cbn; lia).
  split; [split; assumption|]. split.
  - apply (proj1 (retry_budget_stops_and_resets Samples.sample_parse default_client));
      [discriminate | exact Hf | reflexivity].
  - apply (proj2 (retry_budget_stops_and_resets Samples.sample_parse default_client)).
    exact Hb.
Defined.

(** C8 (code_bug): when the retry budget runs out, [connect_and_display]
    re-raises from inside the loop and never reaches
    [self.display.cleanup()], which only the [KeyboardInterrupt] exit
    (the [break]) runs. *)
Theorem exhausted_retries_skip_cleanup :
  (let '(tr, r) := connect_and_display default_client Samples.sample_parse
                     (repeat (ConnectRaises RequestException) 10) in
   r = Raised RequestException /\ count_cleanups tr = 0%nat) /\
   (let '(tr, r) := connect_and_display default_client Samples.sample_parse
                     [ConnectRaises RequestException; ConnectRaises KeyboardInterrupt] in
   r = Returned /\ count_cleanups tr = 1%nat).
Proof. vm_compute. repeat split. Qed.


(** ** No deduplication between the stream and the serial line *)

Lemma process_events_updates (parse : string -> outcome (option pyfloat))
  (evs : list sse_event) :
  parses_without_raising parse evs ->
  process_events parse evs = (map RUpdate (parsed_values parse evs), None).
Proof.
  induction evs as [|ev evs IH]; intros H; [reflexivity|].
  inversion H as [|? ? Hev Hrest]; subst.
  cbn [process_events parsed_values].
  destruct (String.eqb (data ev) ""); [exact (IH Hrest)|].
  destruct (parse (data ev)) as [[v|]|e] eqn:Hp.
  - rewrite (IH Hrest). reflexivity.
  - exact (IH Hrest).
  - exfalso. exact (Hev e eq_refl).
Qed.

Lemma update_all_open_ok (fam : family) (env : serial_env) (h : string) (qs : list Q) :
  write_result env = Ret tt ->
  flush_result env = Ret tt ->
  forall st, ser st = Some h ->
  wire (snd (update_all fam env st (map PFinite qs)))
  = map (fun q => (py_str_int (integer_part q) ++ nl)%string) qs.
Proof.
  intros Hw Hf. induction qs as [|q qs IH]; intros st Hs; [reflexivity|].
  cbn [map update_all]. rewrite (update_speed_open_ok fam env st q h Hs Hw Hf).
  specialize (IH {| port := port st; ser := Some h; current_speed := Some (PFinite q) |}
                 eq_refl).
  destruct (update_all fam env _ (map PFinite qs)) as [st2 ef2]. cbn in IH |- *.
  rewrite IH. reflexivity.
Qed.

(** C4 (counterexample): two frames [{"value": 30}] in a row reach
    [update_speed] twice, and two lines ["30\n"] go to the device. *)
Lemma repeated_value_written_twice :
  updates (fst (connect_and_display default_client Samples.sample_parse
                  [Connected [Samples.frame30; Samples.frame30] StreamClosed]))
  = [PFinite 30; PFinite 30] /\
  wire (snd (update_all pico Samples.env_ok Samples.open_display
               [PFinite 30; PFinite 30]))
  = [("30" ++ nl)%string; ("30" ++ nl)%string].
Proof. vm_compute. split; reflexivity. Qed.

(** C4 (amended): [connect_and_display] neither deduplicates nor
    throttles: after a connection, every value that [parse_event_data]
    returns is passed to [update_speed] in stream order, and on an open
    port whose writes succeed every [update_speed] call puts its own line
    on the wire, so equal consecutive values give equal consecutive lines. *)
Theorem every_parsed_value_is_written :
  (forall (parse : string -> outcome (option pyfloat)) (c : hud_client) (rc : Z)
          (evs : list sse_event) (rest : list attempt),
     rc < max_retries c ->
     parses_without_raising parse evs ->
     run parse c rc (Connected evs StreamClosed :: rest)
     = prepend (RAttempt :: RConnected :: map RUpdate (parsed_values parse evs))
               (run parse c 0 rest)) /\
  (forall (fam : family) (env : serial_env) (st : display) (h : string) (qs : list Q),
     ser st = Some h ->
     write_result env = Ret tt ->
     flush_result env = Ret tt ->
     wire (snd (update_all fam env st (map PFinite qs)))
     = map (fun q => (py_str_int (integer_part q) ++ nl)%string) qs).
Proof.
  split.
  - intros parse c rc evs rest Hrc Hp. cbn [run].
    destruct (Z.ltb_spec rc (max_retries c)) as [_|]; [|lia].
    cbn [try_body]. rewrite (process_events_updates parse evs Hp). reflexivity.
  - intros fam env st h qs Hs Hw Hf. exact (update_all_open_ok fam env h qs Hw Hf st Hs).
Qed.

Lemma every_parsed_value_is_written_witness :
  (0 < max_retries default_client /\
   parses_without_raising Samples.sample_parse [Samples.frame30; Samples.frame30]) /\
  run Samples.sample_parse default_client 0
      [Connected [Samples.frame30; Samples.frame30] StreamClosed]
  = prepend (RAttempt :: RConnected ::
               map RUpdate (parsed_values Samples.sample_parse
                              [Samples.frame30; Samples.frame30]))
            (run Samples.sample_parse default_client 0 []) /\
  wire (snd (update_all pico Samples.env_ok Samples.open_display (map PFinite [30; 30]%Q)))
  = map (fun q => (py_str_int (integer_part q) ++ nl)%string) [30; 30]%Q.
Proof.
  assert (H0 : 0 < max_retries default_client) by (cbn; lia).
  assert (Hp : parses_without_raising Samples.sample_parse [Samples.frame30; Samples.frame30]).
  { repeat constructor; vm_compute; discriminate. }
  split; [split; assumption|]. split.
  - exact (proj1 every_parsed_value_is_written _ _ _ _ _ H0 Hp).
  - apply (proj2 every_parsed_value_is_written pico Samples.env_ok Samples.open_display
             "/dev/ttyACM0"); reflexivity.
Defined.

(** ** The display throttle of the device loop *)

Import Throttle.

Section ThrottleFacts.
Context {V : Type} (V_neq : V -> V -> bool) (interval : Z).

Lemma throttle_forwards_iff (s : tstate V) (now : Z) (p : V) :
  snd (throttle V_neq interval now s) = Some p <->
  pending_speed V s = Some p /\ py_ne V V_neq (Some p) (last_speed V s) = true /\
  interval <= now - last_display_update V s.
Proof.
  unfold throttle. destruct (pending_speed V s) as [x|].
  - destruct (py_ne V V_neq (Some x) (last_speed V s)) eqn:Hne;
      destruct (Z.leb_spec interval (now - last_display_update V s)) as [Hle|Hle]; cbn;
      (split; [intros Hx | intros (Hx & Hy & Hz)]).
    + injection Hx as <-. auto.
    + injection Hx as <-. reflexivity.
    + discriminate.
    + lia.
    + discriminate.
    + injection Hx as <-. unfold py_ne in *. congruence.
    + discriminate.
    + injection Hx as <-. unfold py_ne in *. congruence.
  - cbn. split; [discriminate|]. intros (Hx & _). discriminate.
Qed.

Lemma throttle_state (s : tstate V) (now : Z) :
  (snd (throttle V_neq interval now s) = None -> fst (throttle V_neq interval now s) = s) /\
  (forall p, snd (throttle V_neq interval now s) = Some p ->
     fst (throttle V_neq interval now s) =
       {| pending_speed := None; last_speed := Some p; last_display_update := now |}).
Proof.
  unfold throttle. destruct (pending_speed V s) as [x|]; [|split; [reflexivity|discriminate]].
  destruct (py_ne V V_neq (Some x) (last_speed V s) && Z.leb interval (now - last_display_update V s));
    cbn; split; try reflexivity; try discriminate.
  intros p Hp. injection Hp as <-. reflexivity.
Qed.

Lemma absorb_holds (s : tstate V) (v : V) :
  exists w, pending_speed V (absorb V_neq s (Some v)) = Some w /\ (w = v \/ V_neq v w = false).
Proof.
  unfold absorb. destruct (pending_speed V s) as [w|] eqn:Hp; cbn.
  - destruct (V_neq v w) eqn:Hn; cbn.
    + exists v. auto.
    + exists w. auto.
  - exists v. auto.
Qed.

Lemma idle_ticks_no_pending (ts : list Z) :
  forall s, pending_speed V s = None -> run_ticks V_neq interval s (map IdleTick ts) = [].
Proof.
  induction ts as [|t ts IH]; intros s Hs; [reflexivity|].
  cbn [map run_ticks step]. unfold throttle at 1. rewrite Hs. cbn. apply IH. exact Hs.
Qed.

Lemma idle_ticks_deliver_once (ts : list Z) :
  forall s p,
    pending_speed V s = Some p ->
    py_ne V V_neq (Some p) (last_speed V s) = true ->
    (exists t, In t ts /\ interval <= t - last_display_update V s) ->
    run_ticks V_neq interval s (map IdleTick ts) = [p].
Proof.
  induction ts as [|t ts IH]; intros s p Hs Hne (t' & Hin & Ht'); [contradiction|].
  cbn [map run_ticks step]. unfold throttle at 1. rewrite Hs, Hne. cbn [andb].
  destruct (Z.leb_spec interval (t - last_display_update V s)) as [Hle|Hlt].
  - f_equal. apply idle_ticks_no_pending. reflexivity.
  - apply IH; [exact Hs|exact Hne|].
    destruct Hin as [<-|Hin]; [lia|]. exists t'. auto.
Qed.

End ThrottleFacts.

(** C5: the loop calls [display_speed] with the pending value exactly when
    it differs ([!=]) from the last displayed value and at least
    [display_update_interval] has passed since the last display; the state
    changes exactly then (to no pending value, the displayed value and the
    current time) and is left as it was otherwise; an arriving value
    becomes the pending one (or one [!=] calls equal to it is kept); and a
    pending distinct value is displayed exactly once over the following
    idle passes, at the first pass where the interval has elapsed. *)
Theorem throttle_forwards_latest_distinct_once :
  forall (V : Type) (V_neq : V -> V -> bool) (interval : Z),
    (forall (s : tstate V) (now : Z) (p : V),
       snd (throttle V_neq interval now s) = Some p <->
       pending_speed V s = Some p /\ py_ne V V_neq (Some p) (last_speed V s) = true /\
       interval <= now - last_display_update V s) /\
    (forall (s : tstate V) (now : Z),
       (snd (throttle V_neq interval now s) = None ->
        fst (throttle V_neq interval now s) = s) /\
       (forall p, snd (throttle V_neq interval now s) = Some p ->
          fst (throttle V_neq interval now s) =
            {| pending_speed := None; last_speed := Some p; last_display_update := now |})) /\
    (forall (s : tstate V) (v : V),
       exists w, pending_speed V (absorb V_neq s (Some v)) = Some w /\
                 (w = v \/ V_neq v w = false)) /\
    (forall (ts : list Z) (s : tstate V) (p : V),
       pending_speed V s = Some p ->
       py_ne V V_neq (Some p) (last_speed V s) = true ->
       (exists t, In t ts /\ interval <= t - last_display_update V s) ->
       run_ticks V_neq interval s (map IdleTick ts) = [p]).
Proof.
  intros V V_neq interval. split; [|split; [|split]].
  - apply throttle_forwards_iff.
  - apply throttle_state.
  - apply absorb_holds.
  - apply idle_ticks_deliver_once.
Qed.

(** Speeds 10 then 20 within 100 time units of each other: 20 waits as
    the pending value and is displayed once, at the pass at time 101. *)
Lemma throttle_forwards_latest_distinct_once_witness :
  let s := {| pending_speed := Some 20; last_speed := Some 10; last_display_update := 0 |} in
  (pending_speed Z s = Some 20 /\
   py_ne Z (fun a b => negb (Z.eqb a b)) (Some 20) (last_speed Z s) = true /\
   (exists t, In t [50; 101; 150] /\ 100 <= t - last_display_update Z s)) /\
  run_ticks (fun a b => negb (Z.eqb a b)) 100 s (map IdleTick [50; 101; 150]) = [20].
Proof.
  intros s.
  assert (H1 : pending_speed Z s = Some 20) by reflexivity.
  assert (H2 : py_ne Z (fun a b => negb (Z.eqb a b)) (Some 20) (last_speed Z s) = true)
    by reflexivity.
  assert (H3 : exists t, In t [50; 101; 150] /\ 100 <= t - last_display_update Z s).
  { exists 101. split; [simpl; tauto | cbn; lia]. }
  split; [split; [exact H1 | split; assumption]|].
  exact (proj2 (proj2 (proj2 (throttle_forwards_latest_distinct_once
           Z (fun a b => negb (Z.eqb a b)) 100))) [50; 101; 150] s 20 H1 H2 H3).
Defined.

(** ** Witnesses at concrete inputs *)

Lemma update_speed_writes_one_line_witness :
  (ser Samples.open_display = Some "/dev/ttyACM0" /\
   write_result Samples.env_ok = Ret tt /\ flush_result Samples.env_ok = Ret tt) /\
  exists body : string,
    update_speed pico (PFinite (-37 # 10)) Samples.env_ok Samples.open_display =
      ({| port := port Samples.open_display; ser := Some "/dev/ttyACM0";
          current_speed := Some (PFinite (-37 # 10)) |},
       [EWrite (body ++ nl); EFlush], Ret tt) /\
    decimal_value body = Some (integer_part (-37 # 10)).
Proof.
  split; [repeat split|].
  apply update_speed_writes_one_line; reflexivity.
Defined.

Lemma update_speed_never_raises_witness :
  env_fails_with_Exception Samples.env_write_fails /\
  exists st' ef, update_speed esp32 PNaN Samples.env_write_fails Samples.open_display
                 = (st', ef, Ret tt).
Proof.
  assert (H : env_fails_with_Exception Samples.env_write_fails).
  { unfold env_fails_with_Exception. cbn. repeat split. }
  split; [exact H|].
  exact (update_speed_never_raises esp32 Samples.env_write_fails Samples.open_display PNaN H).
Defined.

Lemma usb_serial_matches_both_families_witness :
  let st := {| port := None; ser := None; current_speed := None |} in
  (py_in "USB Serial" (description Samples.usb_port) = true /\
   truthy_str (port st) = false /\
   truthy_str (getenv Samples.env_ok "PICO_SERIAL_PORT") = false /\
   truthy_str (getenv Samples.env_ok "ESP32_SERIAL_PORT") = false /\
   serial_available Samples.env_ok = true /\
   comports Samples.env_ok = Ret [Samples.usb_port]) /\
  find_port pico Samples.env_ok st = (st, [], Ret (Some "/dev/ttyACM0")) /\
  find_port esp32 Samples.env_ok st = (st, [], Ret (Some "/dev/ttyACM0")).
Proof.
  intros st.
  assert (Hd : py_in "USB Serial" (description Samples.usb_port) = true) by reflexivity.
  split; [repeat split; reflexivity|].
  exact (proj1 (usb_serial_matches_both_families Samples.env_ok st [] [] Samples.usb_port
                  Hd eq_refl eq_refl eq_refl eq_refl) eq_refl).
Defined.

Lemma update_speed_reopens_within_call_witness :
  (ser Samples.open_display = Some "/dev/ttyACM0" /\ py_int (PFinite 30) = Ret 30 /\
   write_result Samples.env_write_fails = Raise SerialException) /\
  update_speed pico (PFinite 30) Samples.env_write_fails Samples.open_display =
    (let '(st2, ef2, r2) :=
       init_serial pico Samples.env_write_fails
         {| port := port Samples.open_display; ser := None;
            current_speed := Some (PFinite 30) |} in
     (st2, EWriteFailed (py_str_int 30 ++ nl) :: EClose :: ESleep 1 :: ef2, r2)) /\
  (ser (fst (fst (update_speed pico (PFinite 30) Samples.env_write_fails Samples.open_display)))
     = Some "/dev/ttyACM0" /\
   update_speed pico (PFinite 45) Samples.env_ok
     (fst (fst (update_speed pico (PFinite 30) Samples.env_write_fails Samples.open_display))) =
     ({| port := Some "/dev/ttyACM0"; ser := Some "/dev/ttyACM0";
         current_speed := Some (PFinite 45) |},
      [EWrite (py_str_int 45 ++ nl); EFlush], Ret tt)).
Proof.
  split; [repeat split|]. split.
  - exact (proj1 (proj1 update_speed_reopens_within_call pico Samples.env_write_fails
                    Samples.open_display (PFinite 30) "/dev/ttyACM0" 30 eq_refl eq_refl)
                 eq_refl).
  - split; [reflexivity|].
    exact (proj2 (proj2 update_speed_reopens_within_call) pico Samples.env_ok
             (fst (fst (update_speed pico (PFinite 30) Samples.env_write_fails
                          Samples.open_display)))
             (PFinite 45) "/dev/ttyACM0" 45 eq_refl eq_refl eq_refl eq_refl).
Defined.

(** * Further properties of the program *)

(** ** The serial displays *)

Module SerialProps.
Import Notions.

(** [cleanup] closes the port only when one is open, then sets [ser] to [None]; the port name and the recorded speed are kept, and it never raises. *)
Lemma cleanup_result (env : serial_env) (st : display) :
  cleanup env st =
    ({| port := port st; ser := None; current_speed := current_speed st |},
     match ser st with Some _ => [EClose] | None => [] end, Ret tt).
Proof.
  destruct st as [p s v]. unfold cleanup, bind, get, try_except, ser_close, set_ser, put, ret.
  cbn. destruct s as [h|]; [|reflexivity].
  destruct (close_result env); reflexivity.
Qed.

(** [cleanup] is idempotent: a second call on the state the first left does nothing. *)
Lemma cleanup_twice (env env' : serial_env) (st : display) :
  let '(st1, _, _) := cleanup env st in cleanup env' st1 = (st1, [], Ret tt).
Proof.
  rewrite cleanup_result. rewrite cleanup_result. reflexivity.
Qed.

(** The port lookup changes no state and performs no serial effect. *)
Lemma find_port_reads_only (fam : family) (env : serial_env) (st : display) :
  exists r, find_port fam env st = (st, [], r).
Proof.
  unfold find_port, bind, get, ask, ret, try_except, list_comports, on_Exception. cbn.
  destruct (truthy_str (port st)); [eexists; reflexivity|]. cbn.
  destruct (truthy_str (getenv env (fam_env_var fam))); [eexists; reflexivity|]. cbn.
  destruct (serial_available env); cbn; [|eexists; reflexivity].
  destruct (comports env) as [ps|e]; cbn; [eexists; reflexivity|].
  destruct (is_Exception e); eexists; reflexivity.
Qed.

(** The port lookup tries the configured port first, then the family's environment variable, then the port scan; without pyserial it returns [None]; when listing the ports raises, an [Exception] gives [None] and anything else propagates. *)
Lemma find_port_precedence (fam : family) (env : serial_env) (st : display) :
  (truthy_str (port st) = true -> find_port fam env st = (st, [], Ret (port st))) /\
  (truthy_str (port st) = false ->
   truthy_str (getenv env (fam_env_var fam)) = true ->
   find_port fam env st = (st, [], Ret (getenv env (fam_env_var fam)))) /\
  (truthy_str (port st) = false ->
   truthy_str (getenv env (fam_env_var fam)) = false ->
   serial_available env = false ->
   find_port fam env st = (st, [], Ret None)) /\
  (forall e, truthy_str (port st) = false ->
   truthy_str (getenv env (fam_env_var fam)) = false ->
   serial_available env = true ->
   comports env = Raise e ->
   find_port fam env st = (st, [], if is_Exception e then Ret None else Raise e)).
Proof.
  unfold find_port, bind, get, ask, ret, try_except, list_comports, on_Exception.
  split; [|split; [|split]].
  - intros H. cbn. rewrite H. reflexivity.
  - intros H1 H2. cbn. rewrite H1. cbn. rewrite H2. reflexivity.
  - intros H1 H2 H3. cbn. rewrite H1. cbn. rewrite H2, H3. reflexivity.
  - intros e H1 H2 H3 H4. cbn. rewrite H1. cbn. rewrite H2, H3. cbn. rewrite H4.
    destruct (is_Exception e); reflexivity.
Qed.

(** The scan returns the device of the first port that matches the family's identifiers or USB vendor id; when it returns nothing, no port matches. *)
Lemma scan_ports_first_match (fam : family) (ports : list port_info) :
  (forall d, scan_ports fam ports = Some d ->
     exists pre p post, ports = (pre ++ p :: post)%list /\ device p = d /\
       port_matches fam p = true /\ Forall (fun q => port_matches fam q = false) pre) /\
  (scan_ports fam ports = None -> Forall (fun q => port_matches fam q = false) ports).
Proof.
  induction ports as [|p ports [IH1 IH2]]; cbn.
  - split; [discriminate|constructor].
  - unfold port_matches at 1 2 3. 
    destruct (existsb _ (fam_identifiers fam)) eqn:Hd.
    + split; [|discriminate]. intros d [= <-]. exists [], p, ports. cbn. rewrite Hd. auto.
    + destruct (match vid p with Some v => fam_vid_match fam v | None => false end) eqn:Hv.
      * split; [|discriminate]. intros d [= <-]. exists [], p, ports. cbn. rewrite Hd, Hv. auto.
      * split.
        -- intros d Hs. destruct (IH1 d Hs) as (pre & q & post & -> & Hq & Hm & Hf).
           exists (p :: pre), q, post. repeat split; auto. constructor; auto.
           unfold port_matches. rewrite Hd, Hv. reflexivity.
        -- intros Hs. constructor; [unfold port_matches; rewrite Hd, Hv; reflexivity|]. auto.
Qed.

(** When a non-empty port is found, [_init_serial] opens it and sleeps 2 s; a failed open that is an [Exception] leaves [ser] at [None] without raising, anything else propagates. *)
Lemma init_serial_opens (fam : family) (env : serial_env) (st : display) (p : string) :
  serial_available env = true ->
  find_port fam env st = (st, [], Ret (Some p)) ->
  p <> "" ->
  (open_result env p = Ret tt ->
   init_serial fam env st =
     ({| port := Some p; ser := Some p; current_speed := current_speed st |},
      [EOpen p; ESleep 2], Ret tt)) /\
  (forall e, open_result env p = Raise e ->
   init_serial fam env st =
     (if is_Exception e
      then ({| port := port st; ser := None; current_speed := current_speed st |},
            [EOpenFailed p], Ret tt)
      else (st, [EOpenFailed p], Raise e))).
Proof.
  intros Ha Hf Hp. apply String.eqb_neq in Hp.
  unfold init_serial, bind, ask. cbn -[find_port]. rewrite Ha. cbn -[find_port].
  rewrite Hf. rewrite Hp. split.
  - intros Ho. unfold try_except, serial_open, set_ser, set_port, sleep, get, put.
    cbn. rewrite Ho. reflexivity.
  - intros e Ho. unfold try_except, serial_open, set_ser, on_Exception, get, put.
    cbn. rewrite Ho. destruct (is_Exception e); reflexivity.
Qed.

(** Without pyserial, or when the lookup finds no port or an empty one, [_init_serial] does nothing. *)
Lemma init_serial_no_open (fam : family) (env : serial_env) (st : display) :
  (serial_available env = false -> init_serial fam env st = (st, [], Ret tt)) /\
  (find_port fam env st = (st, [], Ret None) -> init_serial fam env st = (st, [], Ret tt)) /\
  (find_port fam env st = (st, [], Ret (Some "")) -> init_serial fam env st = (st, [], Ret tt)).
Proof.
  unfold init_serial, bind, ask, ret. split; [|split].
  - intros Ha. cbn -[find_port]. rewrite Ha. reflexivity.
  - intros Hf. cbn -[find_port]. destruct (serial_available env); cbn -[find_port];
      [rewrite Hf|]; reflexivity.
  - intros Hf. cbn -[find_port]. destruct (serial_available env); cbn -[find_port];
      [rewrite Hf|]; reflexivity.
Qed.

(** [_reconnect] closes an open port, sleeps 1 s and reopens the configured port, which it keeps. *)
Lemma reconnect_reuses_port (fam : family) (env : serial_env) (st : display) (p : string) :
  port st = Some p -> p <> "" ->
  serial_available env = true ->
  open_result env p = Ret tt ->
  reconnect fam env st =
    ({| port := Some p; ser := Some p; current_speed := current_speed st |},
     ((match ser st with Some _ => [EClose] | None => [] end) ++
      [ESleep 1; EOpen p; ESleep 2])%list, Ret tt).
Proof.
  intros Hp Hne Ha Ho. destruct st as [pt s v]. cbn in Hp. subst pt. cbn [port ser current_speed].
  set (st1 := {| port := Some p; ser := None; current_speed := v |}).
  assert (Hf : find_port fam env st1 = (st1, [], Ret (Some p))).
  { apply (proj1 (find_port_precedence fam env st1)). cbn.
    apply String.eqb_neq in Hne. rewrite Hne. reflexivity. }
  pose proof (proj1 (init_serial_opens fam env st1 p Ha Hf Hne) Ho) as E.
  unfold reconnect, bind, get, try_except, ser_close, set_ser, put, ret, sleep.
  destruct s as [h|]; cbn -[init_serial].
  - destruct (close_result env); cbn -[init_serial]; fold st1; rewrite E; reflexivity.
  - fold st1; rewrite E; reflexivity.
Qed.

Lemma keeps_bind {A B} (m : M A) (k : A -> M B) :
  keeps_speed m -> (forall a, keeps_speed (k a)) -> keeps_speed (bind m k).
Proof.
  intros Hm Hk env st. unfold bind.
  pose proof (Hm env st) as H1.
  destruct (m env st) as [[st1 ef1] r] eqn:E. cbn in H1.
  destruct r as [a|e]; [|exact H1].
  pose proof (Hk a env st1) as H2. destruct (k a env st1) as [[st2 ef2] r2]. cbn in *. congruence.
Qed.

Lemma keeps_try {A} (m : M A) handler :
  keeps_speed m -> (forall e h, handler e = Some h -> keeps_speed h) ->
  keeps_speed (try_except m handler).
Proof.
  intros Hm Hh env st. unfold try_except.
  pose proof (Hm env st) as H1.
  destruct (m env st) as [[st1 ef1] r] eqn:E. cbn in H1.
  destruct r as [a|e]; [exact H1|].
  destruct (handler e) as [h|] eqn:Eh; [|exact H1].
  pose proof (Hh e h Eh env st1) as H2. destruct (h env st1) as [[st2 ef2] r2]. cbn in *. congruence.
Qed.

Lemma keeps_basic :
  keeps_speed get /\ keeps_speed ask /\ (forall A (a : A), keeps_speed (ret a)) /\
  (forall s, keeps_speed (set_ser s)) /\ (forall p, keeps_speed (set_port p)) /\
  (forall n, keeps_speed (sleep n)) /\ (forall p, keeps_speed (serial_open p)) /\
  keeps_speed ser_close /\ keeps_speed list_comports.
Proof.
  repeat split; intros; intros env st; try reflexivity.
  unfold serial_open. destruct (open_result env p); reflexivity.
Qed.

Create HintDb keeps_db.
#[local] Hint Resolve keeps_bind keeps_try : keeps_db.

Ltac keeps :=
  repeat match goal with
  | |- keeps_speed (bind _ _) => apply keeps_bind; [|intros]
  | |- keeps_speed (try_except _ _) => apply keeps_try; [|intros ? ? ?]
  | |- keeps_speed (match ?x with _ => _ end) => destruct x
  | |- keeps_speed (if ?x then _ else _) => destruct x
  | |- keeps_speed get => apply keeps_basic
  | |- keeps_speed ask => apply keeps_basic
  | |- keeps_speed (ret _) => apply keeps_basic
  | |- keeps_speed (set_ser _) => apply keeps_basic
  | |- keeps_speed (set_port _) => apply keeps_basic
  | |- keeps_speed (sleep _) => apply keeps_basic
  | |- keeps_speed (serial_open _) => apply keeps_basic
  | |- keeps_speed ser_close => apply keeps_basic
  | |- keeps_speed list_comports => apply keeps_basic
  | H : on_Exception _ _ = Some _ |- _ =>
      unfold on_Exception in H; destruct (is_Exception _); [injection H as <-|discriminate]
  | H : Some _ = Some _ |- _ => injection H as <-
  end.

Lemma keeps_find_port fam : keeps_speed (find_port fam).
Proof. unfold find_port. keeps. Qed.

Lemma keeps_init_serial fam : keeps_speed (init_serial fam).
Proof. unfold init_serial. keeps; apply keeps_find_port. Qed.

(** [_reconnect] never changes [current_speed], whether it returns or raises. *)
Lemma keeps_reconnect fam : keeps_speed (reconnect fam).
Proof.
  unfold reconnect. apply keeps_bind; [apply keeps_basic|]. intros st.
  apply keeps_bind; [|intros _; apply keeps_bind; [apply keeps_basic|intros _; apply keeps_init_serial]].
  destruct (ser st); [|apply keeps_basic].
  apply keeps_bind; [|intros; apply keeps_basic].
  apply keeps_try; [apply keeps_basic|]. intros e h [= <-]. apply keeps_basic.
Qed.

Lemma bind_set_current_speed {B} (v : option pyfloat) (k : unit -> M B) env st :
  keeps_speed (k tt) ->
  current_speed (fst (fst (bind (set_current_speed v) k env st))) = v.
Proof.
  intros Hk. unfold bind at 1. unfold set_current_speed, bind, get, put. cbn.
  pose proof (Hk env {| port := port st; ser := ser st; current_speed := v |}) as H.
  destruct (k tt env _) as [[st2 ef2] r2]. exact H.
Qed.

(** Whatever happens in [update_speed], including a raise, the speed it was given is recorded in [current_speed]. *)
Lemma update_speed_records_speed (fam : family) (speed : pyfloat) (env : serial_env)
  (st : display) :
  current_speed (fst (fst (update_speed fam speed env st))) = Some speed.
Proof.
  unfold update_speed. apply bind_set_current_speed.
  apply keeps_bind; [apply keeps_basic|]. intros s.
  destruct (ser s); [|apply keeps_basic].
  apply keeps_try.
  - apply keeps_bind; [intros env0 st0; reflexivity|]. intros n.
    apply keeps_bind; [intros env0 st0; unfold ser_write; destruct (write_result env0); reflexivity|].
    intros _ env0 st0; reflexivity.
  - intros e h He. destruct e; cbn in He;
      try discriminate He; injection He as <-; first [apply keeps_reconnect | apply keeps_basic].
Qed.

(** On an open port, [update_speed] with NaN or an infinity writes nothing and returns normally: [int()] raises and the handler swallows it. *)
Lemma update_speed_nonfinite (fam : family) (env : serial_env) (st : display)
  (speed : pyfloat) (h : string) :
  ser st = Some h ->
  (speed = PNaN \/ exists neg, speed = PInf neg) ->
  update_speed fam speed env st =
    ({| port := port st; ser := Some h; current_speed := Some speed |}, [], Ret tt).
Proof.
  intros Hs Hsp. unfold update_speed, set_current_speed, bind, get, put, try_except, lift, ret.
  cbn. rewrite Hs.
  destruct Hsp as [-> | [neg ->]]; reflexivity.
Qed.

Lemma init_serial_opens_witness :
  (serial_available Samples.env_ok = true /\
   find_port pico Samples.env_ok {| port := None; ser := None; current_speed := None |} =
     ({| port := None; ser := None; current_speed := None |}, [], Ret (Some "/dev/ttyACM0")) /\
   open_result Samples.env_ok "/dev/ttyACM0" = Ret tt) /\
  init_serial pico Samples.env_ok {| port := None; ser := None; current_speed := None |} =
    ({| port := Some "/dev/ttyACM0"; ser := Some "/dev/ttyACM0"; current_speed := None |},
     [EOpen "/dev/ttyACM0"; ESleep 2], Ret tt).
Proof.
  split; [repeat split; reflexivity|].
  apply (proj1 (init_serial_opens pico Samples.env_ok
                  {| port := None; ser := None; current_speed := None |} "/dev/ttyACM0"
                  eq_refl eq_refl ltac:(discriminate))).
  reflexivity.
Defined.

Lemma reconnect_reuses_port_witness :
  (port Samples.open_display = Some "/dev/ttyACM0" /\ serial_available Samples.env_ok = true) /\
  reconnect pico Samples.env_ok Samples.open_display =
    (Samples.open_display, [EClose; ESleep 1; EOpen "/dev/ttyACM0"; ESleep 2], Ret tt).
Proof.
  split; [split; reflexivity|].
  exact (reconnect_reuses_port pico Samples.env_ok Samples.open_display "/dev/ttyACM0"
           eq_refl ltac:(discriminate) eq_refl eq_refl).
Defined.

Lemma update_speed_nonfinite_witness :
  ser Samples.open_display = Some "/dev/ttyACM0" /\
  update_speed esp32 (PInf true) Samples.env_ok Samples.open_display =
    ({| port := Some "/dev/ttyACM0"; ser := Some "/dev/ttyACM0";
        current_speed := Some (PInf true) |}, [], Ret tt).
Proof.
  split; [reflexivity|].
  exact (update_speed_nonfinite esp32 Samples.env_ok Samples.open_display (PInf true)
           "/dev/ttyACM0" eq_refl (or_intror (ex_intro _ true eq_refl))).
Defined.

End SerialProps.

(** ** The SSE client *)

Module ClientProps.
Import Notions.

Lemma count_cleanups_app (l1 l2 : list run_event) :
  count_cleanups (l1 ++ l2) = (count_cleanups l1 + count_cleanups l2)%nat.
Proof. induction l1 as [|x l1 IH]; [reflexivity|]. destruct x; cbn; rewrite ?IH; reflexivity. Qed.

Lemma process_events_no_cleanup (parse : string -> outcome (option pyfloat)) (evs : list sse_event) :
  count_cleanups (fst (process_events parse evs)) = 0%nat.
Proof.
  induction evs as [|ev evs IH]; [reflexivity|]. cbn [process_events].
  destruct (String.eqb (data ev) ""); [exact IH|].
  destruct (parse (data ev)) as [[v|]|e]; [|exact IH|reflexivity].
  destruct (process_events parse evs) as [tr r]. exact IH.
Qed.

Lemma try_body_no_cleanup (parse : string -> outcome (option pyfloat)) (rc : Z) (a : attempt) :
  count_cleanups (fst (fst (try_body parse rc a))) = 0%nat.
Proof.
  destruct a as [e|evs fin]; [reflexivity|]. cbn [try_body].
  pose proof (process_events_no_cleanup parse evs) as H.
  destruct (process_events parse evs) as [tr r]. exact H.
Qed.

(** [connect_and_display] calls [cleanup] exactly once when it returns, and never when it raises. *)
Lemma run_cleanup_on_return (parse : string -> outcome (option pyfloat)) (c : hud_client) :
  forall (atts : list attempt) (rc : Z),
    let '(tr, r) := run parse c rc atts in
    match r with
    | Returned => count_cleanups tr = 1%nat
    | Raised _ => count_cleanups tr = 0%nat
    | AwaitingAttempt => count_cleanups tr = 0%nat
    end.
Proof.
  induction atts as [|a rest IH]; intros rc; cbn [run].
  - destruct (Z.ltb rc (max_retries c)); reflexivity.
  - destruct (Z.ltb rc (max_retries c)); [|reflexivity].
    pose proof (try_body_no_cleanup parse rc a) as H0.
    destruct (try_body parse rc a) as [[tr exc] rc']. cbn in H0.
    destruct exc as [e|].
    + destruct e;
        try (rewrite count_cleanups_app, H0; reflexivity);
        (destruct (Z.ltb (rc' + 1) (max_retries c));
         [specialize (IH (rc' + 1)); destruct (run parse c (rc' + 1) rest) as [tr2 r2];
          unfold prepend; cbn [fst snd];
          rewrite !count_cleanups_app, H0; cbn; exact IH
         | exact H0]).
    + specialize (IH rc'). destruct (run parse c rc' rest) as [tr2 r2].
      unfold prepend; cbn [fst snd]. rewrite count_cleanups_app, H0. exact IH.
Qed.


(** The speed key is chosen with [or]: a truthy [VDM_VehicleSpeed] wins, else a truthy [value], else [speed] whatever its value. *)
Lemma parse_key_precedence (float_of_str : string -> option pyfloat) (kvs : list (string * json)) :
  (truthy (dict_get kvs "VDM_VehicleSpeed") = true ->
   parse_loaded float_of_str (Decoded (JObj kvs)) =
   parse_loaded float_of_str (Decoded (JObj [("VDM_VehicleSpeed", dict_get kvs "VDM_VehicleSpeed")]))) /\
  (truthy (dict_get kvs "VDM_VehicleSpeed") = false ->
   truthy (dict_get kvs "value") = true ->
   parse_loaded float_of_str (Decoded (JObj kvs)) =
   parse_loaded float_of_str (Decoded (JObj [("value", dict_get kvs "value")]))) /\
  (truthy (dict_get kvs "VDM_VehicleSpeed") = false ->
   truthy (dict_get kvs "value") = false ->
   parse_loaded float_of_str (Decoded (JObj kvs)) =
   parse_loaded float_of_str (Decoded (JObj [("speed", dict_get kvs "speed")]))).
Proof.
  unfold parse_loaded, py_or. split; [|split].
  - intros H. cbn [dict_get String.eqb Ascii.eqb Bool.eqb andb]. rewrite H. cbn. rewrite H. reflexivity.
  - intros H1 H2. rewrite H1, H2. cbn. rewrite H2. reflexivity.
  - intros H1 H2. rewrite H1, H2. reflexivity.
Qed.


End ClientProps.

(** ** The client set-up *)

Module AppProps.
Import Notions SerialProps Text App.

Lemma rstrip_slash_app (p : string) :
  rstrip_by slash (p ++ "/") = rstrip_by slash p.
Proof.
  induction p as [|c p IH]; [reflexivity|]. cbn [append rstrip_by]. rewrite IH. reflexivity.
Qed.

Lemma rstrip_keep_last (f : ascii -> bool) (p : string) (c : ascii) :
  f c = false -> rstrip_by f (p ++ String c "") = p ++ String c "".
Proof.
  intros Hc. induction p as [|d p IH]; cbn [append rstrip_by].
  - rewrite Hc. reflexivity.
  - rewrite IH. destruct p; reflexivity.
Qed.

(** The SSE URL does not depend on a trailing slash of the signal path, and a path without one is joined to the signal name with one slash. *)
Lemma sse_url_trailing_slash (signal_path signal_name : string) :
  sse_url (signal_path ++ "/") signal_name = sse_url signal_path signal_name /\
  (forall p c, signal_path = p ++ String c "" -> c <> "/"%char ->
     sse_url signal_path signal_name = signal_path ++ "/" ++ signal_name).
Proof.
  split.
  - unfold sse_url. rewrite rstrip_slash_app. reflexivity.
  - intros p c -> Hc. unfold sse_url. rewrite rstrip_keep_last; [reflexivity|].
    unfold slash. apply Ascii.eqb_neq. exact Hc.
Qed.

(** The request headers always ask for an event stream without caching, and carry the API key exactly when it is set and non-empty. *)
Lemma get_headers_api_key (api_key : option string) :
  header "Accept" (get_headers api_key) = Some "text/event-stream" /\
  header "Cache-Control" (get_headers api_key) = Some "no-cache" /\
  header "x-api-key" (get_headers api_key) = (if truthy_str api_key then api_key else None).
Proof.
  split; [reflexivity|split; [reflexivity|]].
  destruct api_key as [k|]; [|reflexivity]. unfold get_headers.
  destruct (truthy_str (Some k)); reflexivity.
Qed.

(** With [DISPLAY_TYPE] pico, a valid baud rate and a given port that opens, the client starts with a Pico display whose port is open. *)
Lemma init_display_pico (int_of_str : string -> option Z) (env : serial_env) (p : string) (baud : Z) :
  (display_type env = "pico" \/ display_type env = "picoscroll") ->
  int_of_str (getenv_default env "PICO_BAUDRATE" "115200") = Some baud ->
  getenv env "PICO_SERIAL_PORT" = Some p -> p <> "" ->
  serial_available env = true ->
  open_result env p = Ret tt ->
  init_display int_of_str env =
    ([EOpen p; ESleep 2], Ret (HPico {| port := Some p; ser := Some p; current_speed := None |})).
Proof.
  intros Hd Hb Hp Hne Ha Ho.
  assert (Hsel : select_display (display_type env) = PicoKind)
    by (destruct Hd as [-> | ->]; reflexivity).
  set (st := {| port := Some p; ser := None; current_speed := None |}).
  assert (Hf : find_port pico env st = (st, [], Ret (Some p))).
  { apply (proj1 (find_port_precedence pico env st)). cbn.
    apply String.eqb_neq in Hne. rewrite Hne. reflexivity. }
  pose proof (proj1 (init_serial_opens pico env st p Ha Hf Hne) Ho) as E.
  unfold init_display. rewrite Hsel. unfold serial_branch. rewrite Hb.
  unfold new_serial_display. cbn [fam_env_var pico]. rewrite Hp. fold st. rewrite E. reflexivity.
Qed.

(** Without [DISPLAY_TYPE] the client uses the TFT display; for the Pico and Qualia displays an invalid baud rate raises [ValueError] before any serial effect. *)
Lemma init_display_no_serial (int_of_str : string -> option Z) (env : serial_env) :
  (getenv env "DISPLAY_TYPE" = None -> init_display int_of_str env = ([], Ret HTFT)) /\
  (select_display (display_type env) = PicoKind ->
   int_of_str (getenv_default env "PICO_BAUDRATE" "115200") = None ->
   init_display int_of_str env = ([], Raise ValueError)) /\
  (select_display (display_type env) = QualiaKind ->
   int_of_str (getenv_default env "ESP32_BAUDRATE" "115200") = None ->
   init_display int_of_str env = ([], Raise ValueError)).
Proof.
  unfold init_display, serial_branch. split; [|split].
  - intros H. unfold display_type, getenv_default. rewrite H. reflexivity.
  - intros H1 H2. rewrite H1, H2. reflexivity.
  - intros H1 H2. rewrite H1, H2. reflexivity.
Qed.

Lemma init_display_pico_witness :
  display_type Samples.env_pico = "pico" /\
  getenv Samples.env_pico "PICO_SERIAL_PORT" = Some "/dev/ttyACM0" /\
  init_display Samples.sample_int_of_str Samples.env_pico =
    ([EOpen "/dev/ttyACM0"; ESleep 2],
     Ret (HPico {| port := Some "/dev/ttyACM0"; ser := Some "/dev/ttyACM0";
                   current_speed := None |})).
Proof.
  split; [reflexivity|]. split; [reflexivity|].
  exact (init_display_pico Samples.sample_int_of_str Samples.env_pico "/dev/ttyACM0" 115200
           (or_introl eq_refl) eq_refl eq_refl ltac:(discriminate) eq_refl eq_refl).
Defined.

End AppProps.

(** ** The TFT display *)

Module TftProps.
Import Notions Tft.

Lemma testbit_byte_high (x n : Z) : 0 <= x < 256 -> 8 <= n -> Z.testbit x n = false.
Proof.
  intros Hx Hn. rewrite <- (Z.mod_small x (2 ^ 8)) by (cbn; lia).
  apply Z.mod_pow2_bits_high. lia.
Qed.

Lemma rgb565_bits (r g b i : Z) :
  0 <= r < 256 -> 0 <= g < 256 -> 0 <= b < 256 -> 0 <= i ->
  Z.testbit (rgb565 r g b) i =
    if Z.ltb i 5 then Z.testbit b (i + 3)
    else if Z.ltb i 11 then Z.testbit g (i - 3)
    else if Z.ltb i 16 then Z.testbit r (i - 8)
    else false.
Proof.
  intros Hr Hg Hb Hi. unfold rgb565.
  rewrite !Z.lor_spec, !Z.shiftl_spec, Z.shiftr_spec, !Z.land_spec by lia.
  destruct (Z.ltb_spec i 16) as [H16|H16].
  - assert (i = 0 \/ i = 1 \/ i = 2 \/ i = 3 \/ i = 4 \/ i = 5 \/ i = 6 \/ i = 7 \/ i = 8 \/
            i = 9 \/ i = 10 \/ i = 11 \/ i = 12 \/ i = 13 \/ i = 14 \/ i = 15) as Hc by lia.
    repeat destruct Hc as [-> | Hc]; try (subst i);
      try rewrite (testbit_byte_high b (_ + 3)) by lia; cbn;
      rewrite ?andb_false_r, ?andb_true_r, ?orb_false_r, ?orb_false_l; reflexivity.
  - replace (Z.ltb i 5) with false by (symmetry; apply Z.ltb_ge; lia).
    replace (Z.ltb i 11) with false by (symmetry; apply Z.ltb_ge; lia).
    replace (Z.ltb i 16) with false by (symmetry; apply Z.ltb_ge; lia).
    rewrite (testbit_byte_high 248 (i - 8)) by lia.
    rewrite (testbit_byte_high 252 (i - 3)) by lia.
    rewrite (testbit_byte_high b (i + 3)) by lia.
    rewrite !andb_false_r. reflexivity.
Qed.

Lemma rgb565_range (r g b : Z) :
  0 <= r < 256 -> 0 <= g < 256 -> 0 <= b < 256 -> 0 <= rgb565 r g b < 65536.
Proof.
  intros Hr Hg Hb.
  assert (Hn : 0 <= rgb565 r g b).
  { unfold rgb565. apply Z.lor_nonneg. split; [apply Z.lor_nonneg; split|].
    - apply Z.shiftl_nonneg. apply Z.land_nonneg. left; lia.
    - apply Z.shiftl_nonneg. apply Z.land_nonneg. left; lia.
    - apply Z.shiftr_nonneg. lia. }
  assert (E : rgb565 r g b = rgb565 r g b mod 2 ^ 16).
  { apply Z.bits_inj'. intros n Hn0.
    destruct (Z.ltb_spec n 16) as [Hl|Hl].
    - rewrite Z.mod_pow2_bits_low by lia. reflexivity.
    - rewrite Z.mod_pow2_bits_high by lia. rewrite rgb565_bits by lia.
      replace (Z.ltb n 5) with false by (symmetry; apply Z.ltb_ge; lia).
      replace (Z.ltb n 11) with false by (symmetry; apply Z.ltb_ge; lia).
      replace (Z.ltb n 16) with false by (symmetry; apply Z.ltb_ge; lia).
      reflexivity. }
  rewrite E. split; [apply Z.mod_pos_bound; lia|]. apply Z.mod_pos_bound. lia.
Qed.

(** The RGB565 value of three bytes is a 16-bit value holding the top 5 bits of red, the top 6 bits of green and the top 5 bits of blue. *)
Lemma rgb565_fields (r g b : Z) :
  0 <= r < 256 -> 0 <= g < 256 -> 0 <= b < 256 ->
  0 <= rgb565 r g b < 65536 /\
  Z.shiftr (rgb565 r g b) 11 = Z.shiftr r 3 /\
  Z.land (Z.shiftr (rgb565 r g b) 5) 63 = Z.shiftr g 2 /\
  Z.land (rgb565 r g b) 31 = Z.shiftr b 3.
Proof.
  intros Hr Hg Hb. split; [apply rgb565_range; assumption|]. split; [|split].
  - apply Z.bits_inj'. intros n Hn. rewrite !Z.shiftr_spec by lia.
    rewrite rgb565_bits by lia.
    replace (Z.ltb (n + 11) 5) with false by (symmetry; apply Z.ltb_ge; lia).
    replace (Z.ltb (n + 11) 11) with false by (symmetry; apply Z.ltb_ge; lia).
    destruct (Z.ltb_spec (n + 11) 16).
    + f_equal. lia.
    + symmetry. apply testbit_byte_high; lia.
  - apply Z.bits_inj'. intros n Hn. rewrite Z.land_spec, !Z.shiftr_spec by lia.
    change 63 with (Z.ones 6).
    destruct (Z.ltb_spec n 6).
    + rewrite Z.ones_spec_low by lia. rewrite andb_true_r, rgb565_bits by lia.
      replace (Z.ltb (n + 5) 5) with false by (symmetry; apply Z.ltb_ge; lia).
      replace (Z.ltb (n + 5) 11) with true by (symmetry; apply Z.ltb_lt; lia).
      f_equal. lia.
    + rewrite Z.ones_spec_high by lia. rewrite andb_false_r.
      symmetry. apply testbit_byte_high; lia.
  - apply Z.bits_inj'. intros n Hn. rewrite Z.land_spec, Z.shiftr_spec by lia.
    change 31 with (Z.ones 5).
    destruct (Z.ltb_spec n 5).
    + rewrite Z.ones_spec_low by lia. rewrite andb_true_r, rgb565_bits by lia.
      replace (Z.ltb n 5) with true by (symmetry; apply Z.ltb_lt; lia). reflexivity.
    + rewrite Z.ones_spec_high by lia. rewrite andb_false_r.
      symmetry. apply testbit_byte_high; lia.
Qed.

Lemma pixel_bytes_length (px : list Z) (i : nat) : length (pixel_bytes px i) = 2%nat.
Proof. reflexivity. Qed.

Lemma rgb565_data_length (px : list Z) (n : nat) :
  length (flat_map (pixel_bytes px) (seq 0 n)) = (2 * n)%nat.
Proof.
  induction n as [|n IH]; [reflexivity|].
  rewrite seq_S, flat_map_app, length_app, IH. cbn. lia.
Qed.

Lemma rgb565_data_nth (px : list Z) (n i j : nat) :
  (i < n)%nat -> (j < 2)%nat ->
  nth (2 * i + j) (flat_map (pixel_bytes px) (seq 0 n)) 0 = nth j (pixel_bytes px i) 0.
Proof.
  induction n as [|n IH]; intros Hi Hj; [lia|].
  rewrite seq_S, flat_map_app.
  destruct (Nat.lt_ge_cases i n) as [Hlt|Hge].
  - rewrite app_nth1 by (rewrite rgb565_data_length; lia). apply IH; lia.
  - assert (i = n) by lia. subst i.
    rewrite app_nth2 by (rewrite rgb565_data_length; lia).
    rewrite rgb565_data_length. cbn [Nat.add flat_map]. rewrite app_nil_r.
    replace (2 * n + j - 2 * n)%nat with j by lia. reflexivity.
Qed.

Lemma byte_split (v : Z) :
  0 <= v < 65536 ->
  0 <= Z.land v 0xFF < 256 /\ 0 <= Z.land (Z.shiftr v 8) 0xFF < 256 /\
  Z.land v 0xFF + 256 * Z.land (Z.shiftr v 8) 0xFF = v.
Proof.
  intros Hv. change 0xFF with (Z.ones 8). rewrite !Z.land_ones by lia.
  rewrite Z.shiftr_div_pow2 by lia. change (2 ^ 8) with 256.
  rewrite (Z.mod_small (v / 256) 256) by (split; [apply Z.div_pos|apply Z.div_lt_upper_bound]; lia).
  split; [apply Z.mod_pos_bound; lia|]. split; [split; [apply Z.div_pos|apply Z.div_lt_upper_bound]; lia|].
  pose proof (Z.div_mod v 256). lia.
Qed.

(** The framebuffer data has two bytes per pixel, each a byte, low byte first, holding the pixel's RGB565 value. *)
Lemma rgb565_data_pixels (w h : nat) (pixels : list Z) :
  Forall (fun x => 0 <= x < 256) pixels ->
  length (rgb565_data w h pixels) = (2 * (w * h))%nat /\
  Forall (fun x => 0 <= x < 256) (rgb565_data w h pixels) /\
  (forall i, (i < w * h)%nat ->
     nth (2 * i) (rgb565_data w h pixels) 0 + 256 * nth (2 * i + 1) (rgb565_data w h pixels) 0
     = rgb565 (nth (3 * i) pixels 0) (nth (3 * i + 1) pixels 0) (nth (3 * i + 2) pixels 0)).
Proof.
  intros Hpx.
  assert (Hnth : forall k, 0 <= nth k pixels 0 < 256).
  { intros k. destruct (Nat.lt_ge_cases k (length pixels)) as [Hk|Hk].
    - rewrite Forall_forall in Hpx. apply Hpx. apply nth_In. exact Hk.
    - rewrite nth_overflow by exact Hk. lia. }
  assert (Hv : forall i, 0 <= rgb565 (nth (3 * i) pixels 0) (nth (3 * i + 1) pixels 0)
                                    (nth (3 * i + 2) pixels 0) < 65536)
    by (intros i; apply rgb565_range; apply Hnth).
  unfold rgb565_data. split; [apply rgb565_data_length|]. split.
  - apply Forall_flat_map. apply Forall_forall. intros i _. unfold pixel_bytes.
    destruct (byte_split _ (Hv i)) as (H1 & H2 & _). repeat constructor; lia.
  - intros i Hi.
    rewrite <- (Nat.add_0_r (2 * i)) at 1.
    rewrite !rgb565_data_nth by lia. unfold pixel_bytes. cbn [nth].
    destruct (byte_split _ (Hv i)) as (_ & _ & H3). exact H3.
Qed.

(** The TFT display uses the framebuffer exactly when the device exists and opens, and PIL exactly when there is no framebuffer device and PIL is available. *)
Lemma init_mode_result (fb_exists pil_available : bool) (open_fb : outcome unit) (m : mode) :
  init_mode fb_exists pil_available open_fb = Ret m ->
  (m = Framebuffer <-> fb_exists = true /\ open_fb = Ret tt) /\
  (m = Pil <-> fb_exists = false /\ pil_available = true).
Proof.
  unfold init_mode, detect_display_mode.
  destruct fb_exists, pil_available; cbn;
    try (destruct open_fb as [[]|e]; [|destruct (is_Exception e)]);
    intros [= <-]; split; split; intros H; try discriminate; try reflexivity;
    try (destruct H; discriminate); auto.
Qed.

(** The TFT [update_speed] always records the speed; in simulation mode it never raises; with PIL, NaN raises [ValueError] and an infinity [OverflowError]. *)
Lemma tft_update_speed_cases (pil_available : bool) (render : string -> list Z)
  (fb_write : outcome unit) (t : tft) (speed : pyfloat) :
  tft_current_speed (fst (fst (update_speed pil_available render fb_write t speed))) = Some speed /\
  (display_mode t = Simulation -> snd (update_speed pil_available render fb_write t speed) = Ret tt) /\
  (pil_available = true -> display_mode t <> Simulation ->
     (speed = PNaN -> snd (update_speed pil_available render fb_write t speed) = Raise ValueError) /\
     (forall neg, speed = PInf neg ->
        snd (update_speed pil_available render fb_write t speed) = Raise OverflowError)).
Proof.
  unfold update_speed. split; [|split].
  - destruct (display_mode t), pil_available; cbn; try reflexivity;
      destruct (py_int speed); try reflexivity; destruct fb_write; reflexivity.
  - intros ->. reflexivity.
  - intros -> Hm. split.
    + intros ->. destruct (display_mode t); [reflexivity|reflexivity|congruence].
    + intros neg ->. destruct (display_mode t); [reflexivity|reflexivity|congruence].
Qed.

(** In framebuffer mode a finite speed writes one frame of [2 * width * height] bytes: the rendered text in RGB565. *)
Lemma tft_framebuffer_frame (render : string -> list Z) (t : tft) (q : Q) :
  display_mode t = Framebuffer ->
  Forall (fun x => 0 <= x < 256) (render (py_str_int (integer_part q))) ->
  exists data,
    update_speed true render (Ret tt) t (PFinite q) =
      ({| width := width t; height := height t; display_mode := Framebuffer;
          tft_current_speed := Some (PFinite q) |}, [FBWrite data], Ret tt) /\
    data = rgb565_data (width t) (height t) (render (py_str_int (integer_part q))) /\
    length data = (2 * (width t * height t))%nat /\
    Forall (fun x => 0 <= x < 256) data.
Proof.
  intros Hm Hpx. destruct (rgb565_data_pixels (width t) (height t) _ Hpx) as (Hl & Hb & _).
  eexists. split; [|split; [reflexivity|split; [exact Hl|exact Hb]]].
  unfold update_speed. rewrite Hm. cbn [negb]. rewrite integer_part_int. reflexivity.
Qed.

Lemma rgb565_fields_witness :
  (0 <= 200 < 256 /\ 0 <= 100 < 256 /\ 0 <= 50 < 256) /\
  (0 <= rgb565 200 100 50 < 65536 /\
   Z.shiftr (rgb565 200 100 50) 11 = Z.shiftr 200 3 /\
   Z.land (Z.shiftr (rgb565 200 100 50) 5) 63 = Z.shiftr 100 2 /\
   Z.land (rgb565 200 100 50) 31 = Z.shiftr 50 3).
Proof.
  split; [lia|]. apply rgb565_fields; lia.
Defined.

Lemma rgb565_data_pixels_witness :
  Forall (fun x => 0 <= x < 256) [255; 0; 0; 0; 255; 0] /\
  length (rgb565_data 1 2 [255; 0; 0; 0; 255; 0]) = 4%nat /\
  Forall (fun x => 0 <= x < 256) (rgb565_data 1 2 [255; 0; 0; 0; 255; 0]).
Proof.
  assert (H : Forall (fun x => 0 <= x < 256) [255; 0; 0; 0; 255; 0])
    by (repeat constructor; lia).
  destruct (rgb565_data_pixels 1 2 [255; 0; 0; 0; 255; 0] H) as (Hl & Hb & _).
  split; [exact H|]. split; [exact Hl | exact Hb].
Defined.

Lemma init_mode_result_witness :
  init_mode true true (Raise ValueError) = Ret Simulation /\
  (Simulation = Framebuffer <-> true = true /\ Raise ValueError = Ret tt) /\
  (Simulation = Pil <-> true = false /\ true = true).
Proof.
  split; [reflexivity|].
  exact (init_mode_result true true (Raise ValueError) Simulation eq_refl).
Defined.

Lemma tft_framebuffer_frame_witness :
  Forall (fun x => 0 <= x < 256) [255; 128; 0] /\
  exists data,
    update_speed true (fun _ => [255; 128; 0]) (Ret tt)
      {| width := 1; height := 1; display_mode := Framebuffer; tft_current_speed := None |}
      (PFinite 30) =
      ({| width := 1; height := 1; display_mode := Framebuffer;
          tft_current_speed := Some (PFinite 30) |}, [FBWrite data], Ret tt) /\
    data = rgb565_data 1 1 [255; 128; 0] /\
    length data = 2%nat /\
    Forall (fun x => 0 <= x < 256) data.
Proof.
  split; [repeat constructor; lia|].
  exact (tft_framebuffer_frame (fun _ => [255; 128; 0])
           {| width := 1; height := 1; display_mode := Framebuffer; tft_current_speed := None |}
           30 eq_refl ltac:(repeat constructor; lia)).
Defined.

End TftProps.

(** ** The device line reader *)

Module DeviceProps.
Import Notions Text Device.

Lemma str_length_app (s t : string) :
  String.length (s ++ t) = (String.length s + String.length t)%nat.
Proof. induction s as [|c s IH]; cbn; [reflexivity|]. rewrite IH. reflexivity. Qed.

Lemma str_app_nil (s : string) : (s ++ "")%string = s.
Proof. induction s as [|c s IH]; cbn; [reflexivity|]. rewrite IH. reflexivity. Qed.

Lemma split_nl_some (s l r : string) :
  split_nl s = Some (l, r) ->
  s = l ++ String newline r /\ (String.length r < String.length s)%nat /\
  (forall c, In c (list_ascii_of_string l) -> Ascii.eqb c newline = false).
Proof.
  revert l r. induction s as [|c s IH]; intros l r; cbn [split_nl]; [discriminate|].
  destruct (Ascii.eqb c newline) eqn:Hc.
  - intros H. injection H as H1 H2. subst l r. apply Ascii.eqb_eq in Hc. subst c. cbn.
    repeat split; [lia|]. intros _ [].
  - destruct (split_nl s) as [[l' r']|] eqn:E; [|discriminate]. intros [= <- <-].
    destruct (IH l' r' eq_refl) as (-> & Hlen & Hno). cbn [append String.length list_ascii_of_string].
    split; [reflexivity|]. split; [lia|].
    intros d [<- | Hd]; [exact Hc|]. apply Hno; exact Hd.
Qed.

Lemma split_nl_none (s : string) :
  split_nl s = None -> forall c, In c (list_ascii_of_string s) -> Ascii.eqb c newline = false.
Proof.
  induction s as [|c s IH]; cbn [split_nl list_ascii_of_string]; [intros _ _ []|].
  destruct (Ascii.eqb c newline) eqn:Hc; [discriminate|].
  destruct (split_nl s) as [[l r]|]; [discriminate|]. intros _ d [<- | Hd]; [exact Hc|]. apply IH; auto.
Qed.

Lemma split_nl_app (b c : string) :
  split_nl (b ++ c) =
    match split_nl b with
    | Some (l, r) => Some (l, r ++ c)
    | None => match split_nl c with Some (l, r) => Some (b ++ l, r) | None => None end
    end.
Proof.
  induction b as [|x b IH]; cbn [split_nl append].
  - destruct (split_nl c) as [[l r]|]; reflexivity.
  - destruct (Ascii.eqb x newline); [reflexivity|]. rewrite IH.
    destruct (split_nl b) as [[l r]|]; [reflexivity|].
    destruct (split_nl c) as [[l r]|]; reflexivity.
Qed.

Lemma drain_rest_length (f : nat) (b : string) :
  (String.length (snd (drain f b)) <= String.length b)%nat.
Proof.
  revert b. induction f as [|f IH]; intros b; cbn; [lia|].
  destruct (split_nl b) as [[l r]|] eqn:E; [|cbn; lia].
  destruct (split_nl_some _ _ _ E) as (_ & Hlen & _).
  specialize (IH r). destruct (drain f r) as [ls b']. cbn in *. lia.
Qed.

Lemma drain_fuel (f g : nat) (b : string) :
  (String.length b <= f)%nat -> (String.length b <= g)%nat -> drain f b = drain g b.
Proof.
  revert g b. induction f as [|f IH]; intros g b Hf Hg.
  - destruct b; cbn in Hf; [|lia]. destruct g; reflexivity.
  - destruct g as [|g].
    + destruct b; cbn in Hg; [|lia]. reflexivity.
    + cbn. destruct (split_nl b) as [[l r]|] eqn:E; [|reflexivity].
      destruct (split_nl_some _ _ _ E) as (_ & Hlen & _).
      rewrite (IH g r) by lia. reflexivity.
Qed.

Lemma drain_app (f : nat) :
  forall b c, (String.length (b ++ c) <= f)%nat ->
  drain f (b ++ c) =
    let '(l1, r1) := drain f b in
    let '(l2, r2) := drain f (r1 ++ c) in ((l1 ++ l2)%list, r2).
Proof.
  induction f as [|f IH]; intros b c Hlen.
  - destruct b; [|cbn in Hlen; lia]. destruct c; [|cbn in Hlen; lia]. reflexivity.
  - destruct (split_nl b) as [[l r]|] eqn:E.
    + destruct (split_nl_some _ _ _ E) as (Hb & Hl & _).
      assert (Hrc : (String.length (r ++ c) <= f)%nat).
      { rewrite Hb in Hlen. rewrite !str_length_app in *. cbn [String.length] in Hlen.
        rewrite ?str_length_app in Hlen. lia. }
      assert (Hd1 : drain (S f) (b ++ c) =
                    let '(ls, b') := drain f (r ++ c) in
                    ((if String.eqb (strip l) "" then ls else strip l :: ls), b'))
        by (cbn [drain]; rewrite split_nl_app, E; reflexivity).
      assert (Hd2 : drain (S f) b =
                    let '(ls, b') := drain f r in
                    ((if String.eqb (strip l) "" then ls else strip l :: ls), b'))
        by (cbn [drain]; rewrite E; reflexivity).
      rewrite Hd1, Hd2, (IH r c Hrc).
      pose proof (drain_rest_length f r) as Hr.
      destruct (drain f r) as [l1 r1]. cbn [snd] in Hr.
      rewrite (drain_fuel (S f) f (r1 ++ c)) by (rewrite str_length_app in *; lia).
      destruct (drain f (r1 ++ c)) as [l2 r2].
      destruct (String.eqb (strip l) ""); reflexivity.
    + assert (Hd : drain (S f) b = ([], b)) by (cbn [drain]; rewrite E; reflexivity).
      rewrite Hd. destruct (drain (S f) (b ++ c)) as [l2 r2]. reflexivity.
Qed.

(** Splitting the device's buffer into lines does not depend on how the input was chunked: reading [b ++ c] gives the lines of [b], then the lines of its rest followed by [c]. *)
Lemma complete_lines_chunks (b c : string) :
  complete_lines (b ++ c) =
    let '(l1, r1) := complete_lines b in
    let '(l2, r2) := complete_lines (r1 ++ c) in ((l1 ++ l2)%list, r2).
Proof.
  unfold complete_lines. rewrite (drain_app (String.length (b ++ c)) b c) by lia.
  rewrite (drain_fuel (String.length (b ++ c)) (String.length b) b) by (rewrite ?str_length_app; lia).
  pose proof (drain_rest_length (String.length b) b) as Hr.
  destruct (drain (String.length b) b) as [l1 r1]. cbn in Hr.
  rewrite (drain_fuel (String.length (b ++ c)) (String.length (r1 ++ c)) (r1 ++ c))
    by (rewrite ?str_length_app in *; lia).
  reflexivity.
Qed.

Lemma lstrip_chars (p : ascii -> bool) (s : string) :
  forall c, In c (list_ascii_of_string (lstrip_by p s)) -> In c (list_ascii_of_string s).
Proof.
  induction s as [|x s IH]; cbn [lstrip_by]; [auto|].
  destruct (p x); [intros c Hc; right; apply IH; exact Hc | auto].
Qed.

Lemma rstrip_chars (p : ascii -> bool) (s : string) :
  forall c, In c (list_ascii_of_string (rstrip_by p s)) -> In c (list_ascii_of_string s).
Proof.
  induction s as [|x s IH]; cbn [rstrip_by]; [auto|].
  intros c. destruct (rstrip_by p s) as [|y r] eqn:E.
  - destruct (p x); cbn; [intros []|]. intros [<- | []]. left; reflexivity.
  - cbn [list_ascii_of_string]. intros [<- | Hc]; [left; reflexivity|].
    right. apply IH. exact Hc.
Qed.

Lemma drain_no_newline (f : nat) :
  forall b, (String.length b <= f)%nat ->
  Forall (fun l => l <> "" /\ no_newline l) (fst (drain f b)) /\ no_newline (snd (drain f b)).
Proof.
  induction f as [|f IH]; intros b Hb.
  - destruct b; cbn in Hb; [|lia]. cbn. split; [constructor|]. intros c [].
  - cbn [drain]. destruct (split_nl b) as [[l r]|] eqn:E.
    + destruct (split_nl_some _ _ _ E) as (_ & Hl & Hno).
      destruct (IH r ltac:(lia)) as [H1 H2].
      destruct (drain f r) as [ls b']. cbn in H1, H2 |- *. split; [|exact H2].
      destruct (String.eqb (strip l) "") eqn:Es; [exact H1|].
      constructor; [|exact H1]. split; [apply String.eqb_neq; exact Es|].
      intros c Hc. apply Hno. apply lstrip_chars with is_space. apply rstrip_chars with is_space.
      exact Hc.
    + cbn. split; [constructor|]. intros c. apply split_nl_none. exact E.
Qed.

(** Every line the device loop hands to [float()] is stripped, non-empty and free of newlines, and the rest it keeps has no newline. *)
Lemma complete_lines_shape (buffer : string) :
  Forall (fun l => l <> "" /\ no_newline l) (fst (complete_lines buffer)) /\
  no_newline (snd (complete_lines buffer)).
Proof. apply drain_no_newline. lia. Qed.

(** The host's line bodies. *)
Lemma digits_aux_chars (f : nat) :
  forall n acc c, In c (list_ascii_of_string (digits_aux f n acc)) ->
  In c (list_ascii_of_string acc) \/ exists d, 0 <= d < 10 /\ c = digit_char d.
Proof.
  induction f as [|f IH]; intros n acc c; cbn [digits_aux]; [auto|].
  assert (Hm : 0 <= n mod 10 < 10) by (apply Z.mod_pos_bound; lia).
  destruct (Z.ltb n 10).
  - cbn. intros [<- | H]; [right; eauto|left; exact H].
  - intros H. destruct (IH _ _ _ H) as [[<- | H'] | H']; [right; eauto|left; exact H'|right; exact H'].
Qed.

Lemma py_str_int_chars (z : Z) :
  forall c, In c (list_ascii_of_string (py_str_int z)) ->
  c = "-"%char \/ exists d, 0 <= d < 10 /\ c = digit_char d.
Proof.
  intros c. unfold py_str_int, str_nonneg. destruct (Z.ltb z 0).
  - cbn [append list_ascii_of_string]. intros [<- | H]; [left; reflexivity|].
    destruct (digits_aux_chars _ _ _ _ H) as [[]|H']; right; exact H'.
  - intros H. destruct (digits_aux_chars _ _ _ _ H) as [[]|H']; right; exact H'.
Qed.

Lemma digit_char_plain (d : Z) :
  0 <= d < 10 -> is_space (digit_char d) = false /\ Ascii.eqb (digit_char d) newline = false.
Proof.
  intros H.
  assert (d = 0 \/ d = 1 \/ d = 2 \/ d = 3 \/ d = 4 \/ d = 5 \/ d = 6 \/ d = 7
          \/ d = 8 \/ d = 9) as Hd by lia.
  repeat destruct Hd as [-> | Hd]; try (subst d); split; reflexivity.
Qed.

Lemma py_str_int_plain (z : Z) :
  forall c, In c (list_ascii_of_string (py_str_int z)) ->
  is_space c = false /\ Ascii.eqb c newline = false.
Proof.
  intros c Hc. destruct (py_str_int_chars z c Hc) as [-> | (d & Hd & ->)].
  - split; reflexivity.
  - apply digit_char_plain. exact Hd.
Qed.

Lemma py_str_int_nonempty (z : Z) : py_str_int z <> "".
Proof.
  unfold py_str_int, str_nonneg. destruct (Z.ltb z 0); [discriminate|].
  destruct (digits_aux_head (Z.to_nat (Z.log2 z)) z "") as (c & r & -> & _). discriminate.
Qed.

Lemma strip_plain (s : string) :
  (forall c, In c (list_ascii_of_string s) -> is_space c = false) -> strip s = s.
Proof.
  intros H. unfold strip.
  assert (Hl : lstrip_by is_space s = s).
  { destruct s as [|c s]; [reflexivity|]. cbn. rewrite (H c (or_introl eq_refl)). reflexivity. }
  rewrite Hl. clear Hl. induction s as [|c s IH]; [reflexivity|].
  cbn [rstrip_by]. rewrite IH by (intros d Hd; apply H; right; exact Hd).
  destruct s; [|reflexivity]. rewrite (H c (or_introl eq_refl)). reflexivity.
Qed.

Lemma split_nl_plain (s : string) : no_newline s -> split_nl s = None.
Proof.
  induction s as [|c s IH]; intros H; [reflexivity|]. cbn [split_nl].
  rewrite (H c (or_introl eq_refl)). rewrite IH; [reflexivity|]. intros d Hd. apply H. right. exact Hd.
Qed.

Lemma complete_lines_one (w : string) :
  w <> "" -> no_newline w ->
  (forall c, In c (list_ascii_of_string w) -> is_space c = false) ->
  complete_lines (w ++ nl) = ([w], "").
Proof.
  intros Hne Hno Hsp. unfold complete_lines. rewrite str_length_app. cbn [String.length nl].
  rewrite Nat.add_1_r. cbn [drain]. rewrite split_nl_app, (split_nl_plain w Hno).
  cbn [split_nl nl]. replace (Ascii.eqb (ascii_of_nat 10) newline) with true by reflexivity.
  rewrite str_app_nil. rewrite (strip_plain w Hsp).
  apply String.eqb_neq in Hne. rewrite Hne. destruct (String.length w); reflexivity.
Qed.

Lemma complete_lines_host (qs : list Q) :
  complete_lines (stream (map (fun q => (py_str_int (integer_part q) ++ nl)%string) qs)) =
    (map (fun q => py_str_int (integer_part q)) qs, "").
Proof.
  induction qs as [|q qs IH]; [reflexivity|].
  cbn [map stream fold_right]. fold (stream (map (fun q => (py_str_int (integer_part q) ++ nl)%string) qs)).
  rewrite complete_lines_chunks.
  rewrite complete_lines_one.
  - cbn [append]. rewrite IH. reflexivity.
  - apply py_str_int_nonempty.
  - intros c Hc. apply (py_str_int_plain _ c Hc).
  - intros c Hc. apply (py_str_int_plain _ c Hc).
Qed.

(** The lines the host writes for finite speeds are read back by the device, in order, as the integer parts of the speeds. *)
Lemma host_lines_reach_device (fam : family) (env : serial_env) (st : display) (h : string)
  (qs : list Q) :
  ser st = Some h -> write_result env = Ret tt -> flush_result env = Ret tt ->
  complete_lines (stream (wire (snd (update_all fam env st (map PFinite qs))))) =
    (map (fun q => py_str_int (integer_part q)) qs, "") /\
  map decimal_value (fst (complete_lines (stream (wire (snd (update_all fam env st (map PFinite qs)))))))
    = map (fun q => Some (integer_part q)) qs.
Proof.
  intros Hs Hw Hf. rewrite (update_all_open_ok fam env h qs Hw Hf st Hs).
  rewrite complete_lines_host. split; [reflexivity|]. cbn [fst].
  rewrite map_map. apply map_ext. intros q. apply py_str_int_value.
Qed.

Lemma host_lines_reach_device_witness :
  (ser Samples.open_display = Some "/dev/ttyACM0" /\ write_result Samples.env_ok = Ret tt /\
   flush_result Samples.env_ok = Ret tt) /\
  complete_lines (stream (wire (snd (update_all pico Samples.env_ok Samples.open_display
                                       (map PFinite [30%Q; 45%Q]))))) =
    (map (fun q => py_str_int (integer_part q)) [30%Q; 45%Q], "") /\
  map decimal_value (fst (complete_lines (stream (wire (snd (update_all pico Samples.env_ok
                            Samples.open_display (map PFinite [30%Q; 45%Q])))))))
    = [Some 30; Some 45].
Proof.
  split; [repeat split|].
  exact (host_lines_reach_device pico Samples.env_ok Samples.open_display "/dev/ttyACM0"
           [30%Q; 45%Q] eq_refl eq_refl eq_refl).
Defined.

End DeviceProps.

(** ** From the event to the TFT display *)

Module ReadingProps.
Import Notions Tft.

(** A reading of NaN under [VDM_VehicleSpeed] is parsed as NaN, and handed to the TFT display with PIL outside simulation mode it makes [update_speed] raise [ValueError], from [int()]. *)
Lemma nan_reading_raises_in_tft (float_of_str : string -> option pyfloat)
  (kvs : list (string * json)) (render : string -> list Z) (fb_write : outcome unit) (t : tft) :
  dict_get kvs "VDM_VehicleSpeed" = JNum PNaN ->
  display_mode t <> Simulation ->
  parse_loaded float_of_str (Decoded (JObj kvs)) = Ret (Some PNaN) /\
  snd (update_speed true render fb_write t PNaN) = Raise ValueError.
Proof.
  intros Hk Hm. split.
  - rewrite (proj1 (ClientProps.parse_key_precedence float_of_str kvs)); rewrite Hk; reflexivity.
  - exact (proj1 (proj2 (proj2 (TftProps.tft_update_speed_cases true render fb_write t PNaN)) eq_refl Hm) eq_refl).
Qed.

Lemma nan_reading_raises_in_tft_witness :
  dict_get [("VDM_VehicleSpeed", JNum PNaN)] "VDM_VehicleSpeed" = JNum PNaN /\
  parse_loaded sample_float_of_str (Decoded (JObj [("VDM_VehicleSpeed", JNum PNaN)]))
    = Ret (Some PNaN) /\
  snd (update_speed true (fun _ => []) (Ret tt)
         {| width := 480; height := 320; display_mode := Framebuffer; tft_current_speed := None |}
         PNaN) = Raise ValueError.
Proof.
  split; [reflexivity|].
  exact (nan_reading_raises_in_tft sample_float_of_str
           [("VDM_VehicleSpeed", JNum PNaN)] (fun _ => []) (Ret tt)
           {| width := 480; height := 320; display_mode := Framebuffer; tft_current_speed := None |}
           eq_refl ltac:(discriminate)).
Defined.

End ReadingProps.

(** ** The display throttle, further *)

Module ThrottleProps.
Import Notions.

Section MoreThrottle.
Context {V : Type} (V_neq : V -> V -> bool) (interval : Z).

Lemma fold_absorb_last (lines : list (option V)) :
  forall s, last_speed V (fold_left (absorb V_neq) lines s) = last_speed V s.
Proof.
  induction lines as [|l lines IH]; intros s; [reflexivity|].
  cbn [fold_left]. rewrite IH. unfold absorb. destruct l; [|reflexivity].
  destruct (py_ne V V_neq _ _); reflexivity.
Qed.

(** Each speed the device displays differs from the one displayed before it. *)
Lemma run_ticks_distinct (ts : list (tick V)) :
  forall s, displayed_distinct V_neq (last_speed V s) (run_ticks V_neq interval s ts).
Proof.
  induction ts as [|t ts IH]; intros s; [exact I|].
  cbn [run_ticks].
  set (s' := match t with DataTick lines _ => fold_left (absorb V_neq) lines s | IdleTick _ => s end).
  set (now := match t with DataTick _ n => n | IdleTick n => n end).
  assert (Hstep : step V_neq interval s t = throttle V_neq interval now s') by (destruct t; reflexivity).
  assert (Hl : last_speed V s' = last_speed V s)
    by (subst s'; destruct t; [apply fold_absorb_last|reflexivity]).
  rewrite Hstep.
  destruct (throttle_state V_neq interval s' now) as [Hn Hs].
  destruct (throttle V_neq interval now s') as [s2 out] eqn:E. cbn in Hn, Hs.
  destruct out as [p|].
  - pose proof (proj1 (throttle_forwards_iff V_neq interval s' now p)) as Hf.
    rewrite E in Hf. destruct (Hf eq_refl) as (_ & Hne & _).
    cbn. split; [rewrite <- Hl; exact Hne|].
    rewrite (Hs p eq_refl). apply (IH {| pending_speed := None; last_speed := Some p;
                                          last_display_update := now |}).
  - rewrite (Hn eq_refl), <- Hl. apply IH.
Qed.

(** Within the lines read in one pass, the last valid number is the one left pending for display. *)
Lemma fold_absorb_pending (Heq : forall a b, V_neq a b = false -> a = b) (lines : list (option V)) :
  forall s, pending_speed V (fold_left (absorb V_neq) lines s) = last_valid (pending_speed V s) lines.
Proof.
  unfold last_valid.
  induction lines as [|l lines IH]; intros s; [reflexivity|].
  cbn [fold_left]. rewrite IH. f_equal. unfold absorb. destruct l as [v|]; [|reflexivity].
  destruct (py_ne V V_neq (Some v) (pending_speed V s)) eqn:E; [reflexivity|].
  cbn. destruct (pending_speed V s) as [w|]; cbn in E; [|discriminate].
  f_equal. symmetry. apply Heq. exact E.
Qed.

End MoreThrottle.

Lemma fold_absorb_pending_witness :
  (forall a b : Z, negb (Z.eqb a b) = false -> a = b) /\
  pending_speed Z (fold_left (absorb (fun a b : Z => negb (Z.eqb a b)))
                     [Some 30; None; Some 45; None] (@init Z)) = Some 45.
Proof.
  assert (Heq : forall a b : Z, negb (Z.eqb a b) = false -> a = b).
  { intros a b H. apply Z.eqb_eq. destruct (Z.eqb a b); [reflexivity | discriminate H]. }
  split; [exact Heq|].
  exact (fold_absorb_pending (fun a b : Z => negb (Z.eqb a b)) Heq
           [Some 30; None; Some 45; None] (@init Z)).
Defined.

End ThrottleProps.
